(** * flashlight: module containers (fl/nn/modules/Container.cpp)

    A shallow embedding of [ModuleWrapper], [Container] and [Sequential].

    - A C++ call either returns, throws, or has undefined behaviour; the three
      are kept apart by [Outcome].  Methods that mutate their object are
      state-passing functions in the monad [M].
    - Module objects live on a heap and are referred to by address; a
      [ModuleWrapper] holds such a pointer under one of its ownership modes.
    - [Module] is an abstract base class.  Calls that the source makes through
      a child pointer ([train], [eval], [params], [setParams], [forward],
      [prettyString], [clone]) are virtual, and are modelled by the type class
      [Module]: a result stated for an instance of the class holds for
      whatever the children do.  What depends on the child's own function
      (that a clone is another instance of equal structure, that a child
      stores the parameter it is given) is stated for the modules of the
      spec, which are modelled under "Concrete modules".  A child that is
      itself a container runs the methods defined here, so the calls nest
      along the tree of modules.
    - [int] and [size_t] counters are modelled in [Z]; they index vectors
      whose sizes are far below [2^31]. *)

From stdpp Require Import gmap gmultiset list strings pretty.

(** ** Outcomes and the state monad *)

Inductive exception :=
| out_of_range        (* std::out_of_range *)
| invalid_argument    (* std::invalid_argument *)
| bad_variant_access. (* std::bad_variant_access *)

Inductive undefined_behaviour :=
| null_dereference      (* a member call through a null pointer *)
| index_out_of_bounds   (* vector::operator[] or front() outside the vector *)
| dangling_pointer      (* a pointer to an object that is no longer alive *)
| stack_exhausted.      (* member calls nested deeper than the stack allows *)

Inductive Outcome (S A : Type) : Type :=
| Return (a : A) (s : S)          (* normal return, with the state it leaves *)
| Throw (e : exception) (s : S)   (* an exception leaves the call, with the state at the throw *)
| Undefined (u : undefined_behaviour).

Arguments Return {S A} a s.
Arguments Throw {S A} e s.
Arguments Undefined {S A} u.

Definition M (S A : Type) : Type := S -> Outcome S A.

Definition ret {S A} (a : A) : M S A := fun s => Return a s.

Definition bind {S A B} (m : M S A) (k : A -> M S B) : M S B :=
  fun s =>
    match m s with
    | Return a s' => k a s'
    | Throw e s' => Throw e s'
    | Undefined u => Undefined u
    end.

Definition throw {S A} (e : exception) : M S A := fun s => Throw e s.

Definition undefined {S A} (u : undefined_behaviour) : M S A := fun _ => Undefined u.

Definition gets {S A} (f : S -> A) : M S A := fun s => Return (f s) s.

Definition modify {S} (f : S -> S) : M S unit := fun s => Return tt (f s).

(** A const member function observes the state: it returns or fails, and
    leaves no state of its own behind. *)
Definition Const (S A : Type) : Type := S -> Outcome unit A.

Definition observe {S A} (f : Const S A) : M S A :=
  fun s =>
    match f s with
    | Return a _ => Return a s
    | Throw e _ => Throw e s
    | Undefined u => Undefined u
    end.

Definition forget {S A} (o : Outcome S A) : Outcome unit A :=
  match o with
  | Return a _ => Return a tt
  | Throw e _ => Throw e tt
  | Undefined u => Undefined u
  end.

Notation "'let*' x ':=' m 'in' k" := (bind m (fun x => k))
  (at level 10, x name, m at level 100, k at level 200).
Notation "m '>>' k" := (bind m (fun _ => k))
  (at level 90, right associativity).

(** A loop over the elements of a vector, and one that threads a local
    variable through the iterations. *)
Fixpoint for_each {S X} (l : list X) (body : X -> M S unit) : M S unit :=
  match l with
  | [] => ret tt
  | x :: l' => body x >> for_each l' body
  end.

Fixpoint fold_each {S X B} (l : list X) (body : B -> X -> M S B) (b : B) : M S B :=
  match l with
  | [] => ret b
  | x :: l' => let* b' := body b x in fold_each l' body b'
  end.

(** ** Pointers, variables and the world *)

Definition addr := positive.
Definition ptr := option addr.   (* [None] is nullptr *)

(** Modelled from the spec: the autograd [Variable] (Variable.h is not part of
    the sources).  A Variable is a handle on tensor state that "exposes a
    gradient-tracking flag (setCalcGrad)"; the container never inspects the
    tensor.  Copies of a handle share the flag, which [World] stores. *)
Definition fl_Variable := nat.

(** Everything a container can reach besides its own fields: the heap of
    module objects (of some type [Obj] of concrete modules) and the
    gradient-tracking flag of each variable. *)
Record World (Obj : Type) : Type := mkWorld {
  heap : gmap addr Obj;
  calcGrad : gmap fl_Variable bool
}.
Arguments mkWorld {Obj} heap calcGrad.
Arguments heap {Obj} w.
Arguments calcGrad {Obj} w.

(** [Variable::setCalcGrad] on the handle [v]. *)
Definition setCalcGrad {Obj} (v : fl_Variable) (b : bool) (w : World Obj) : World Obj :=
  mkWorld (heap w) (<[v := b]> (calcGrad w)).

(** The virtual interface of [Module]: what a call through a pointer to a
    module at address [a] does to the world.  [params] and [prettyString]
    are const. *)
Class Module (Obj : Type) : Type := {
  virt_clone : addr -> M (World Obj) ptr;
  virt_train : addr -> M (World Obj) unit;
  virt_eval : addr -> M (World Obj) unit;
  virt_params : addr -> Const (World Obj) (list fl_Variable);
  virt_setParams : addr -> fl_Variable -> Z -> M (World Obj) unit;
  virt_forward : addr -> list fl_Variable -> M (World Obj) (list fl_Variable);
  virt_prettyString : addr -> Const (World Obj) string
}.

(** ** ModuleWrapper *)

(** The ownership variant [ptr_].  Modelled from the spec: the declaration of
    [ptr_] is in Container.h, which is not part of the sources; the spec gives
    "ownership variant over {empty, unique-owned Module, shared Module}".
    [Empty] is the state in which neither pointer alternative is held, the
    one [valueless_by_exception()] reports. *)
Inductive ModuleWrapper :=
| Empty
| Unique (p : ptr)    (* std::unique_ptr<Module> *)
| Shared (p : ptr).   (* std::shared_ptr<Module> *)

(** Modelled from the spec: the state of [ptr_] in a wrapper to which nothing
    has been assigned yet.  The spec has the empty state for it ("copying an
    empty wrapper yields an empty wrapper"). *)
Definition ModuleWrapper_initial : ModuleWrapper := Empty.

Definition valueless_by_exception (w : ModuleWrapper) : bool :=
  match w with Empty => true | _ => false end.

Definition holds_unique (w : ModuleWrapper) : bool :=
  match w with Unique _ => true | _ => false end.

Definition holds_shared (w : ModuleWrapper) : bool :=
  match w with Shared _ => true | _ => false end.

(** [ModuleWrapper(std::unique_ptr<Module>)] and [ModuleWrapper(std::shared_ptr<Module>)]. *)
Definition ModuleWrapper_unique (p : ptr) : ModuleWrapper := Unique p.
Definition ModuleWrapper_shared (p : ptr) : ModuleWrapper := Shared p.

(** [ModuleWrapper::get]. *)
Definition ModuleWrapper_get (w : ModuleWrapper) : ptr :=
  match w with
  | Unique p => p
  | Shared p => p
  | Empty => None
  end.

(** [ModuleWrapper::operator->]. *)
Definition ModuleWrapper_arrow (w : ModuleWrapper) : ptr :=
  match w with
  | Unique p => p
  | Shared p => p
  | Empty => None
  end.

(** [ModuleWrapper::operator bool]. *)
Definition ModuleWrapper_bool (w : ModuleWrapper) : bool :=
  if valueless_by_exception w then false
  else match w with
       | Unique p => bool_decide (p ≠ None)
       | Shared p => bool_decide (p ≠ None)
       | Empty => false
       end.

(** [ModuleWrapper::make_shared]; the state is the wrapper itself. *)
Definition ModuleWrapper_make_shared : M ModuleWrapper ptr :=
  fun w =>
    if valueless_by_exception w then Return None w
    else
      let w' := match w with
                | Unique p => Shared p   (* ptr_ = shared_ptr(std::move(unique)) *)
                | _ => w
                end in
      match w' with
      | Shared p => Return p w'          (* std::get<shared_ptr>(ptr_) *)
      | _ => Throw bad_variant_access w'
      end.

Section Wrapper.
Context {Obj : Type} `{!Module Obj}.

(** [ModuleWrapper(const ModuleWrapper& other)]: [ptr_] starts in its initial
    state and is assigned in the two pointer cases.  [->clone()] on a null
    unique pointer is a call through a null pointer. *)
Definition ModuleWrapper_copy (other : ModuleWrapper) : M (World Obj) ModuleWrapper :=
  match other with
  | Unique p =>
      match p with                 (* std::get<unique_ptr>(other.ptr_)->clone() *)
      | None => undefined null_dereference
      | Some a => let* c := virt_clone a in ret (Unique c)
      end
  | Shared p => ret (Shared p)
  | Empty => ret ModuleWrapper_initial
  end.

End Wrapper.

(** ** Container *)

(** The fields the source uses: [modules_] and [childParamIdx_] of
    [Container], [params_] and [train_] inherited from [Module]. *)
Record Container : Type := mkContainer {
  modules_ : list ModuleWrapper;
  params_ : list fl_Variable;
  childParamIdx_ : gmap Z (Z * Z);   (* flat position -> (child index, local index) *)
  train_ : bool
}.

(** [train_ = b]. *)
Definition set_train_ (b : bool) (c : Container) : Container :=
  mkContainer (modules_ c) (params_ c) (childParamIdx_ c) b.

(** [v[i]] of a vector, as an option; [size()] as an integer. *)
Definition nth_Z {A} (l : list A) (i : Z) : option A :=
  if decide (0 ≤ i)%Z then l !! Z.to_nat i else None.

Definition size_Z {A} (l : list A) : Z := Z.of_nat (length l).

Section Container.
Context {Obj : Type} `{!Module Obj}.

(** The state a method of a container runs in: the container ([*this]) and
    the world around it. *)
Record State : Type := mkState {
  self : Container;
  world : World Obj
}.

Definition set_self (f : Container -> Container) (s : State) : State :=
  mkState (f (self s)) (world s).

(** A computation on the world, run from a method of the container. *)
Definition lift_world {A} (m : M (World Obj) A) : M State A :=
  fun s =>
    match m (world s) with
    | Return a w' => Return a (mkState (self s) w')
    | Throw e w' => Throw e (mkState (self s) w')
    | Undefined u => Undefined u
    end.

(** [p->f(...)]: a member call through the pointer [p]. *)
Definition call {A} (p : ptr) (f : addr -> M (World Obj) A) : M State A :=
  match p with
  | None => undefined null_dereference
  | Some a => lift_world (f a)
  end.

(** [p->f(...)] for a const member function [f]. *)
Definition call_const {A} (p : ptr) (f : addr -> Const (World Obj) A) : M State A :=
  match p with
  | None => undefined null_dereference
  | Some a => observe (fun s => f a (world s))
  end.

(** [modules_[i]] (unchecked) and [modules_.at(i)] (checked). *)
Definition modules_index (i : Z) : M State ModuleWrapper :=
  let* ms := gets (fun s => modules_ (self s)) in
  match nth_Z ms i with
  | Some m => ret m
  | None => undefined index_out_of_bounds
  end.

Definition modules_at (i : Z) : M State ModuleWrapper :=
  let* ms := gets (fun s => modules_ (self s)) in
  match nth_Z ms i with
  | Some m => ret m
  | None => throw out_of_range
  end.

(** [params_[i].setCalcGrad(b)]. *)
Definition params_setCalcGrad (i : Z) (b : bool) : M State unit :=
  let* ps := gets (fun s => params_ (self s)) in
  match nth_Z ps i with
  | Some v => lift_world (modify (setCalcGrad v b))
  | None => undefined index_out_of_bounds
  end.

(** [Container::getOrphanedParamsIdxMap].  The loop advances by a size read
    from a child, so it is run with fuel; [None] means the loop was still
    running when the fuel ran out. *)
Fixpoint orphaned_loop (fuel : nat) (i prevMidx : Z) (orphanedParamsIdxMap : gmultiset (Z * Z))
  : M State (option (gmultiset (Z * Z))) :=
  match fuel with
  | O => ret None
  | S fuel' =>
      let* n := gets (fun s => size_Z (params_ (self s))) in
      if decide (i < n)%Z then
        let* idx := gets (fun s => childParamIdx_ (self s)) in
        match idx !! i with
        | Some (midx, pidx) =>
            let* mod_ := modules_at midx in
            let* ps := call_const (ModuleWrapper_arrow mod_) virt_params in
            orphaned_loop fuel' (i + size_Z ps) midx orphanedParamsIdxMap
        | None =>
            orphaned_loop fuel' (i + 1) prevMidx (orphanedParamsIdxMap ⊎ {[+ (prevMidx, i) +]})
        end
      else ret (Some orphanedParamsIdxMap)
  end.

Definition Container_getOrphanedParamsIdxMap (fuel : nat) : M State (option (gmultiset (Z * Z))) :=
  orphaned_loop fuel 0 (-1) ∅.

(** [Container::module]. *)
Definition Container_module (id : Z) : M State ModuleWrapper :=
  modules_index id.

(** The loop of [train] and [eval] over the container's own parameters. *)
Definition own_params_loop (b : bool) : M State unit :=
  let* n := gets (fun s => size_Z (params_ (self s))) in
  for_each (seqZ 0 n) (fun i =>
    let* idx := gets (fun s => childParamIdx_ (self s)) in
    if decide (idx !! i = None) then params_setCalcGrad i b else ret tt).

(** [Container::train]. *)
Definition Container_train : M State unit :=
  modify (set_self (set_train_ true)) >>
  own_params_loop true >>
  let* ms := gets (fun s => modules_ (self s)) in
  for_each ms (fun module => call (ModuleWrapper_arrow module) virt_train).

(** [Container::eval]. *)
Definition Container_eval : M State unit :=
  modify (set_self (set_train_ false)) >>
  own_params_loop false >>
  let* ms := gets (fun s => modules_ (self s)) in
  for_each ms (fun module => call (ModuleWrapper_arrow module) virt_eval).

(** Modelled from the spec: [Module::setParams] of the base class (Module.cpp
    is not part of the sources): "writes value into the flat parameter
    sequence at position"; "fails with an out-of-range condition if position
    is invalid". *)
Definition Module_setParams (var : fl_Variable) (position : Z) : M State unit :=
  let* ps := gets (fun s => params_ (self s)) in
  match nth_Z ps position with
  | Some _ =>
      modify (set_self (fun c =>
        mkContainer (modules_ c) (<[Z.to_nat position := var]> (params_ c))
                    (childParamIdx_ c) (train_ c)))
  | None => throw out_of_range
  end.

(** [Container::setParams]. *)
Definition Container_setParams (var : fl_Variable) (position : Z) : M State unit :=
  Module_setParams var position >>
  let* idx := gets (fun s => childParamIdx_ (self s)) in
  match idx !! position with
  | Some (midx, pidx) =>
      let* m := modules_index midx in
      call (ModuleWrapper_arrow m) (fun a => virt_setParams a var pidx)
  | None => ret tt
  end.

End Container.

(** ** prettyString and Sequential *)

(** The two characters of ["\n\t"]. *)
Definition newline_tab : string :=
  String (Ascii.ascii_of_nat 10) (String (Ascii.ascii_of_nat 9) "").

Section Sequential.
Context {Obj : Type} `{!Module Obj}.

(** The two loops that [Container::prettyString] and
    [Sequential::prettyString] run on the stream [ss]. *)
Definition diagram_loop (ss : string) : M (@State Obj) string :=
  let* n := gets (fun s => size_Z (modules_ (self s))) in
  fold_each (seqZ 0 n) (fun ss i => ret (ss +:+ " -> (" +:+ pretty i +:+ ")")) ss.

Definition children_loop (ss : string) : M (@State Obj) string :=
  let* n := gets (fun s => size_Z (modules_ (self s))) in
  fold_each (seqZ 0 n) (fun ss i =>
    let* m := modules_index i in
    let* child := call_const (ModuleWrapper_arrow m) virt_prettyString in
    ret (ss +:+ newline_tab +:+ "(" +:+ pretty i +:+ "): " +:+ child)) ss.

(** [Container::prettyString]. *)
Definition Container_prettyString : M (@State Obj) string :=
  let* ss := ret " [input" in
  let* ss := diagram_loop ss in
  let* ss := ret (ss +:+ " -> output]") in
  children_loop ss.

(** [Sequential::prettyString]. *)
Definition Sequential_prettyString : M (@State Obj) string :=
  let* ss := ret "Sequential" in
  let* ss := ret (ss +:+ " [input") in
  let* ss := diagram_loop ss in
  let* ss := ret (ss +:+ " -> output]") in
  children_loop ss.

(** [Sequential::forward(const std::vector<Variable>&)]. *)
Definition Sequential_forward (input : list fl_Variable) : M (@State Obj) (list fl_Variable) :=
  let* ms := gets (fun s => modules_ (self s)) in
  fold_each ms (fun output module =>
    call (ModuleWrapper_arrow module) (fun a => virt_forward a output)) input.

(** [Sequential::forward(const Variable&)]. *)
Definition Sequential_forward1 (input : fl_Variable) : M (@State Obj) fl_Variable :=
  let* ms := gets (fun s => modules_ (self s)) in
  let* output := fold_each ms (fun output module =>
    call (ModuleWrapper_arrow module) (fun a => virt_forward a output)) [input] in
  if decide (length output ≠ 1) then throw invalid_argument
  else match output with
       | x :: _ => ret x            (* output.front() *)
       | [] => undefined index_out_of_bounds
       end.

(** [Sequential::operator()]. *)
Definition Sequential_call (input : fl_Variable) : M (@State Obj) fl_Variable :=
  Sequential_forward1 input.

End Sequential.

(** ** reset, clear and modules

    The three remaining functions end or copy the ownership of modules.
    What the standard library does when an owner lets go is taken as given:
    [delete_module a] is [delete] on the module at [a] (its destructor, then
    its storage), [release_shared a] is one shared pointer letting go of the
    module at [a], and [destroy_wrappers ms] is the destruction of the
    elements [ms] of a vector of wrappers, in whatever order the library
    destroys them. *)
Section Lifetime.
Context {Obj : Type} `{!Module Obj}.
Context (delete_module release_shared : addr -> World Obj -> World Obj).
Context (destroy_wrappers : list ModuleWrapper -> World Obj -> World Obj).

(** [ModuleWrapper::reset]: the wrapper it leaves, in the world it leaves. *)
Definition ModuleWrapper_reset (this : ModuleWrapper) : M (World Obj) ModuleWrapper :=
  match this with
  | Unique p =>                    (* std::get<unique_ptr>(ptr_).reset() *)
      match p with
      | Some a => fun w => Return (Unique None) (delete_module a w)
      | None => ret (Unique None)
      end
  | Shared p =>                    (* std::get<shared_ptr>(ptr_).reset() *)
      match p with
      | Some a => fun w => Return (Shared None) (release_shared a w)
      | None => ret (Shared None)
      end
  | Empty => ret Empty
  end.

(** [Container::clear]. *)
Definition Container_clear : M (@State Obj) unit :=
  (* childParamIdx_.clear() *)
  modify (set_self (fun c => mkContainer (modules_ c) (params_ c) ∅ (train_ c))) >>
  (* modules_.clear() *)
  modify (fun s =>
    mkState (mkContainer [] (params_ (self s)) (childParamIdx_ (self s)) (train_ (self s)))
            (destroy_wrappers (modules_ (self s)) (world s))) >>
  (* params_.clear() *)
  modify (set_self (fun c => mkContainer (modules_ c) [] (childParamIdx_ c) (train_ c))).

(** The copy of a vector of wrappers: the elements are copied in order by
    the copy constructor; when a copy throws, the copies made so far are
    destroyed and the exception goes on. *)
Fixpoint copy_wrappers (ms copies : list ModuleWrapper) : M (World Obj) (list ModuleWrapper) :=
  match ms with
  | [] => ret copies
  | m :: ms' =>
      fun w =>
        match ModuleWrapper_copy m w with
        | Return m' w' => copy_wrappers ms' (copies ++ [m']) w'
        | Throw e w' => Throw e (destroy_wrappers copies w')
        | Undefined u => Undefined u
        end
  end.

(** [Container::modules]. *)
Definition Container_modules : M (@State Obj) (list ModuleWrapper) :=
  let* ms := gets (fun s => modules_ (self s)) in
  lift_world (copy_wrappers ms []).

End Lifetime.

(** ** Concrete modules *)

(** Modelled from the spec: the modules a container holds.  No subclass of
    [Module] and no member function of the base class is part of the
    sources.  The spec has every child support "forward, train(), eval(),
    params(), setParams(Variable, index), clone() -> owned Module,
    prettyString()"; [setParams] "writes value into the flat parameter
    sequence at position" and "fails with an out-of-range condition if
    position is invalid"; the clone is "a distinct instance with equal
    structure", a "deep copy, independent lifetime".  The two kinds of
    module objects below follow these words; the results stated for every
    implementation of [Module] do not depend on them.  A layer has its own
    parameter list, mode flag and name; its [forward] is a function on
    variable sequences, [train()] and [eval()] set its mode and the flag of
    each of its parameters, [setParams] is the checked write and [clone()]
    allocates a copy.  A Sequential has the fields of a [Container] and the
    methods defined above: a virtual call on it runs the method on the
    fields stored on the heap and stores the fields back.  Such calls nest
    as deep as the tree of modules; [Object_Module stack] allows [stack]
    levels of them. *)
Record Layer : Type := mkLayer {
  layer_params : list fl_Variable;
  layer_train : bool;
  layer_name : string;
  layer_forward : list fl_Variable -> list fl_Variable
}.

Inductive Object :=
| a_layer (l : Layer)
| a_sequential (c : Container).

Definition store (a : addr) (o : Object) (w : World Object) : World Object :=
  mkWorld (<[a := o]> (heap w)) (calcGrad w).

(** [new] of a copy of [o]: the copy is stored at an address that is not in
    use. *)
Definition allocate (o : Object) : M (World Object) ptr :=
  fun w => let a' := fresh (dom (heap w)) in Return (Some a') (store a' o w).

(** The dynamic type of the object at [a] selects the method. *)
Definition dispatch {A} (a : addr) (on_layer : Layer -> M (World Object) A)
           (on_sequential : Container -> M (World Object) A) : M (World Object) A :=
  fun w =>
    match heap w !! a with
    | Some (a_layer l) => on_layer l w
    | Some (a_sequential c) => on_sequential c w
    | None => Undefined dangling_pointer
    end.

(** [train()] and [eval()] of a layer. *)
Definition Layer_set_mode (a : addr) (b : bool) (l : Layer) : M (World Object) unit :=
  fun w =>
    Return tt
      (mkWorld
         (<[a := a_layer (mkLayer (layer_params l) b (layer_name l) (layer_forward l))]> (heap w))
         (foldl (fun g v => <[v := b]> g) (calcGrad w) (layer_params l))).

(** Modelled from the spec: [setParams] of a layer, the [Module::setParams]
    of the base class (Module.cpp is not part of the sources): the write
    into the parameter sequence of the layer at [position], which "fails
    with an out-of-range condition if position is invalid". *)
Definition Layer_setParams (a : addr) (var : fl_Variable) (position : Z) (l : Layer)
  : M (World Object) unit :=
  match nth_Z (layer_params l) position with
  | Some _ =>
      modify (store a (a_layer (mkLayer (<[Z.to_nat position := var]> (layer_params l))
                                        (layer_train l) (layer_name l) (layer_forward l))))
  | None => throw out_of_range
  end.

Section Dispatch.
(** The virtual calls one level further down; none when the stack is used up. *)
Context (inner : option (Module Object)).

(** A method of the Sequential whose fields [c] are stored at [a]. *)
Definition run_sequential {A} (a : addr)
           (method : Module Object -> M (@State Object) A) (c : Container)
  : M (World Object) A :=
  fun w =>
    match inner with
    | None => Undefined stack_exhausted
    | Some below =>
        match method below (mkState c w) with
        | Return x s' => Return x (store a (a_sequential (self s')) (world s'))
        | Throw e s' => Throw e (store a (a_sequential (self s')) (world s'))
        | Undefined u => Undefined u
        end
    end.

(** Modelled from the spec: [clone()] of a Sequential (the class, with its
    copy constructor and its [clone()], is declared in Container.h, which is
    not part of the sources), the "deep copy" of the spec.  The copy is a new
    object: every wrapper is copied by its copy constructor, first to last,
    the other fields as they are. *)
Definition Sequential_clone (c : Container) : M (World Object) ptr :=
  match inner with
  | None => undefined stack_exhausted
  | Some below =>
      let* ms := fold_each (modules_ c) (fun copies m =>
                   let* m' := @ModuleWrapper_copy Object below m in
                   ret (copies ++ [m'])) [] in
      allocate (a_sequential (mkContainer ms (params_ c) (childParamIdx_ c) (train_ c)))
  end.

(** Modelled from the spec: the virtual functions of the two kinds of
    modules (no implementation of [Module] is part of the sources).
    [clone()] of a layer is a new object with the fields of the layer, "a
    distinct instance with equal structure". *)
Definition Object_methods : Module Object := {|
  virt_clone a := dispatch a (fun l => allocate (a_layer l)) Sequential_clone;
  virt_train a :=
    dispatch a (Layer_set_mode a true)
             (run_sequential a (fun below => @Container_train Object below));
  virt_eval a :=
    dispatch a (Layer_set_mode a false)
             (run_sequential a (fun below => @Container_eval Object below));
  virt_params a w :=
    forget (dispatch a (fun l => ret (layer_params l)) (fun c => ret (params_ c)) w);
  virt_setParams a var position :=
    dispatch a (Layer_setParams a var position)
             (run_sequential a (fun below => @Container_setParams Object below var position));
  virt_forward a input :=
    dispatch a (fun l => ret (layer_forward l input))
             (run_sequential a (fun below => @Sequential_forward Object below input));
  virt_prettyString a w :=
    forget (dispatch a (fun l => ret (layer_name l))
                     (run_sequential a (fun below => @Sequential_prettyString Object below)) w)
|}.

End Dispatch.

Fixpoint Object_Module (stack : nat) : Module Object :=
  Object_methods (match stack with
                  | O => None
                  | S below => Some (Object_Module below)
                  end).

#[export] Instance Object_stack : Module Object := Object_Module 4.

(** A world with two layers, at addresses 1 and 3, and a container over them:
    the first child is uniquely owned and has the parameters 10 and 11, the
    second is shared and has the parameter 12; the parameter 13 was added to
    the container itself, after the two children. *)
Definition two_layers : World Object :=
  mkWorld (<[1%positive := a_layer (mkLayer [10; 11] false "Linear" id)]>
            (<[3%positive := a_layer (mkLayer [12] false "ReLU" id)]> ∅)) ∅.

Definition sample_container : Container :=
  mkContainer [Unique (Some 1%positive); Shared (Some 3%positive)]
              [10; 11; 12; 13]
              (<[0%Z := (0%Z, 0%Z)]> (<[1%Z := (0%Z, 1%Z)]> (<[2%Z := (1%Z, 0%Z)]> ∅)))
              true.

Definition sample : @State Object := mkState sample_container two_layers.

(** The same with a third parameter of the second layer in place of the
    container's own: every parameter comes from a child. *)
Definition registered : @State Object :=
  mkState
    (mkContainer [Unique (Some 1%positive); Shared (Some 3%positive)]
                 [10; 11; 12; 13; 14]
                 (<[0%Z := (0%Z, 0%Z)]> (<[1%Z := (0%Z, 1%Z)]> (<[2%Z := (1%Z, 0%Z)]>
                   (<[3%Z := (1%Z, 1%Z)]> (<[4%Z := (1%Z, 2%Z)]> ∅)))))
                 true)
    (mkWorld (<[1%positive := a_layer (mkLayer [10; 11] false "Linear" id)]>
               (<[3%positive := a_layer (mkLayer [12; 13; 14] false "ReLU" id)]> ∅)) ∅).

(** A tree of depth two: the sample container is itself a module, stored at
    address 5, and the only child of an outer container, which has the
    parameter 14 of its own. *)
Definition nested : @State Object :=
  mkState
    (mkContainer [Unique (Some 5%positive)]
                 [10; 11; 12; 13; 14]
                 (<[0%Z := (0%Z, 0%Z)]> (<[1%Z := (0%Z, 1%Z)]> (<[2%Z := (0%Z, 2%Z)]>
                   (<[3%Z := (0%Z, 3%Z)]> ∅))))
                 false)
    (store 5%positive (a_sequential (set_train_ false sample_container)) two_layers).

(** Three layers for pipelines: the first maps every variable to its
    successor, the second returns its input, the third returns its input
    twice over.  [narrow] chains the first two, [wide] all three, and
    [no_children] is a Sequential without children. *)
Definition three_layers : World Object :=
  mkWorld (<[1%positive := a_layer (mkLayer [] false "Shift" (map S))]>
            (<[2%positive := a_layer (mkLayer [] false "Identity" id)]>
              (<[3%positive := a_layer (mkLayer [] false "Twice" (fun xs => xs ++ xs))]> ∅))) ∅.

Definition narrow : @State Object :=
  mkState (mkContainer [Unique (Some 1%positive); Shared (Some 2%positive)] [] ∅ true)
          three_layers.

Definition wide : @State Object :=
  mkState (mkContainer [Unique (Some 1%positive); Shared (Some 2%positive);
                        Unique (Some 3%positive)] [] ∅ true)
          three_layers.

Definition no_children : @State Object :=
  mkState (mkContainer [] [] ∅ true) three_layers.

(** Two containers whose index map does not fit their child: in [stalled]
    position 1, which follows a parameter of the container's own, is mapped
    to a child without parameters; in [skewed] position 0 is mapped to a
    local index the child does not have. *)
Definition stalled : @State Object :=
  mkState (mkContainer [Unique (Some 1%positive)] [10; 11] (<[1%Z := (0%Z, 0%Z)]> ∅) true)
          three_layers.

Definition skewed : @State Object :=
  mkState (mkContainer [Unique (Some 1%positive)] [10; 11] (<[0%Z := (0%Z, 7%Z)]> ∅) true)
          two_layers.

(** The end of a layer's life, for worlds of layers: [delete] frees the
    storage of the layer, a shared pointer that is not the last one changes
    nothing, and the wrappers of a vector are destroyed first to last. *)
Definition Object_delete (a : addr) (w : World Object) : World Object :=
  mkWorld (delete a (heap w)) (calcGrad w).

Definition Object_release (a : addr) (w : World Object) : World Object := w.

Definition Object_destroy (ms : list ModuleWrapper) (w : World Object) : World Object :=
  foldl (fun w m => match m with
                    | Unique (Some a) => Object_delete a w
                    | _ => w
                    end) w ms.

(** Containers with a child wrapper that holds no module, with an index-map
    entry for a child that is not there, with nothing but shared children,
    and with nothing but parameters of its own. *)
Definition with_null_child : @State Object :=
  mkState (mkContainer [Unique (Some 1%positive); Unique None; Shared (Some 3%positive)]
                       [] ∅ true)
          two_layers.

Definition misindexed : @State Object :=
  mkState (mkContainer [Unique (Some 1%positive)] [10; 11] (<[1%Z := (6%Z, 0%Z)]> ∅) true)
          two_layers.

Definition all_shared : @State Object :=
  mkState (mkContainer [Shared (Some 1%positive); Shared (Some 3%positive)] [] ∅ true)
          two_layers.

Definition only_own : @State Object :=
  mkState (mkContainer [] [20; 21; 22] ∅ true) two_layers.

(** ** The training driver (app/objdet/examples/ImageNetResnet50Backbone.cpp)

    The epoch loop of [main] with its three helpers [lrScheduler],
    [saveModel] and [loadModel].  What the loop asks of its collaborators
    (data set, optimizer, model, file system) is recorded as the sequence of
    those calls; the calls themselves are not looked into, and are taken to
    return.  [epoch] is an [int], [FLAGS_exp_checkpoint_epoch] an [int64]
    and [FLAGS_train_epochs] a [uint64]: the conversions between them are
    written out. *)

Definition int_max : Z := 2 ^ 31 - 1.
Definition int64_max : Z := 2 ^ 63 - 1.

(** The conversions to [int] and to [uint64]. *)
Definition to_int (z : Z) : Z := ((z + 2 ^ 31) mod 2 ^ 32 - 2 ^ 31)%Z.
Definition to_uint64 (z : Z) : Z := (z mod 2 ^ 64)%Z.

Inductive driver_call :=
| load (modelPath : string)            (* fl::load(modelPath, model) *)
| resample                             (* trainDataset.resample() *)
| setLr_tenth                          (* opt.setLr(opt.getLr() * 0.1) *)
| train_and_validate (epoch : Z)       (* the batches, the meters, evalLoop and the log lines *)
| save (modelPath : string).           (* fl::save(modelPath, model) *)

Global Instance driver_call_eq_dec : EqDecision driver_call.
Proof. solve_decision. Defined.

Record Flags : Type := mkFlags {
  exp_checkpoint_path : string;
  exp_checkpoint_epoch : Z;     (* int64 *)
  train_epochs : Z              (* uint64 *)
}.

(** [FLAGS_exp_checkpoint_path + std::to_string(epoch)]. *)
Definition modelPath (flags : Flags) (epoch : Z) : string :=
  exp_checkpoint_path flags +:+ pretty epoch.

(** The lambdas [lrScheduler], [saveModel] and [loadModel]. *)
Definition lrScheduler (epoch : Z) : list driver_call :=
  if decide (epoch = 60 \/ epoch = 90 \/ epoch = 120)%Z then [setLr_tenth] else [].

Definition saveModel (isMaster : bool) (flags : Flags) (epoch : Z) : list driver_call :=
  if isMaster then [save (modelPath flags epoch)] else [].

Definition loadModel (flags : Flags) (epoch : Z) : list driver_call :=
  [load (modelPath flags epoch)].

(** How a run of the loop ends: it finishes, or [epoch++] overflows, or the
    fuel of the model runs out first. *)
Inductive Run :=
| finished (calls : list driver_call)
| signed_overflow (calls : list driver_call)
| still_running.

(** One iteration of the epoch loop, and the loop. *)
Definition epoch_body (isMaster : bool) (flags : Flags) (epoch : Z) : list driver_call :=
  [resample] ++ lrScheduler epoch ++ [train_and_validate epoch] ++ saveModel isMaster flags epoch.

Fixpoint epoch_loop (fuel : nat) (isMaster : bool) (flags : Flags) (epoch : Z)
         (calls : list driver_call) : Run :=
  match fuel with
  | O => still_running
  | S fuel' =>
      if decide (to_uint64 epoch < train_epochs flags)%Z then
        let calls' := calls ++ epoch_body isMaster flags epoch in
        if decide (epoch = int_max) then signed_overflow calls'
        else epoch_loop fuel' isMaster flags (epoch + 1) calls'
      else finished calls
  end.

(** [main], from the loading of the checkpoint to the end of training. *)
Definition training (fuel : nat) (isMaster : bool) (flags : Flags) : Run :=
  let calls :=
    if decide (0 ≤ exp_checkpoint_epoch flags)%Z
    then loadModel flags (to_int (exp_checkpoint_epoch flags))
    else [] in
  if decide (exp_checkpoint_epoch flags = int64_max) then signed_overflow calls
  else epoch_loop fuel isMaster flags (to_int (exp_checkpoint_epoch flags + 1)) calls.

(** * Vocabulary of the properties *)

(** The concatenation of a list of strings. *)
Definition concat_strings (l : list string) : string := foldr String.append "" l.

Section Vocabulary.
Context {Obj : Type} `{!Module Obj}.
Implicit Types (s : @State Obj) (w : World Obj) (c : Container) (i p prev k : Z).

(** The container after [params_.at(position) = var]. *)
Definition params_written (var : fl_Variable) (position : Z) (s : @State Obj) : @State Obj :=
  set_self (fun c =>
    mkContainer (modules_ c) (<[Z.to_nat position := var]> (params_ c))
                (childParamIdx_ c) (train_ c)) s.

(** [w1] is [w] after the flag of the container's own parameters was set to
    [b]: the heap is the same, every variable that stands at a position
    without an index-map entry has the flag [b], and a variable that stands
    at no such position has the flag it had. *)
Definition own_flagged (b : bool) c w w1 : Prop :=
  heap w1 = heap w /\
  (forall i v, nth_Z (params_ c) i = Some v -> childParamIdx_ c !! i = None ->
     calcGrad w1 !! v = Some b) /\
  (forall v, (forall i, nth_Z (params_ c) i = Some v -> childParamIdx_ c !! i <> None) ->
     calcGrad w1 !! v = calcGrad w !! v).

(** [w'] is [w] after a call of [f] on each child in turn, each of which
    returned. *)
Inductive children_run (f : addr -> M (World Obj) unit)
  : list ModuleWrapper -> World Obj -> World Obj -> Prop :=
| children_run_nil w : children_run f [] w w
| children_run_cons m ms a w w1 w2 :
    ModuleWrapper_arrow m = Some a ->
    f a w = Return tt w1 ->
    children_run f ms w1 w2 ->
    children_run f (m :: ms) w w2.

(** What one iteration of the loop over the parameters does to the world,
    and what the whole loop does. *)
Definition flag_step (b : bool) c w (i : Z) : World Obj :=
  if decide (childParamIdx_ c !! i = None) then
    match nth_Z (params_ c) i with
    | Some v => setCalcGrad v b w
    | None => w
    end
  else w.

Definition flag_own_params (b : bool) c w : World Obj :=
  foldl (flag_step b c) w (seqZ 0 (size_Z (params_ c))).

(** One iteration of the scan, as the description of the scan has it: from
    position [i] with [prev] the child seen last, a position with an entry
    [(midx, pidx)] moves on by the number of parameters of child [midx] and
    makes [midx] the child seen last; a position without an entry moves on by
    one. *)
Inductive scan_step s : Z * Z -> Z * Z -> Prop :=
| scan_child i prev midx pidx m a ps :
    (i < size_Z (params_ (self s)))%Z ->
    childParamIdx_ (self s) !! i = Some (midx, pidx) ->
    nth_Z (modules_ (self s)) midx = Some m ->
    ModuleWrapper_arrow m = Some a ->
    virt_params a (world s) = Return ps tt ->
    scan_step s (i, prev) (i + size_Z ps, midx)%Z
| scan_orphan i prev :
    (i < size_Z (params_ (self s)))%Z ->
    childParamIdx_ (self s) !! i = None ->
    scan_step s (i, prev) (i + 1, prev)%Z.

(** Position [p] is reported under key [k]: the scan, started at position 0
    with the key -1, reaches [p] with [k] the child seen last, and [p] is a
    position of the flat list without an entry. *)
Definition orphan_at s k p : Prop :=
  rtc (scan_step s) (0, -1)%Z (p, k) /\
  (p < size_Z (params_ (self s)))%Z /\
  childParamIdx_ (self s) !! p = None.

(** Every entry of the index map within the flat list names a child that is
    there and has at least one parameter. *)
Definition scan_ready s : Prop :=
  forall i midx pidx,
    (0 ≤ i < size_Z (params_ (self s)))%Z ->
    childParamIdx_ (self s) !! i = Some (midx, pidx) ->
    exists m a ps,
      nth_Z (modules_ (self s)) midx = Some m /\
      ModuleWrapper_arrow m = Some a /\
      virt_params a (world s) = Return ps tt /\
      (0 < size_Z ps)%Z.

(** The pipeline over the children [ms], each of which returns: the first
    child is applied to [input], and every later child to the output of the
    child before it. *)
Inductive pipeline_run : list ModuleWrapper -> list fl_Variable -> World Obj ->
                         list fl_Variable -> World Obj -> Prop :=
| pipeline_nil input w : pipeline_run [] input w input w
| pipeline_cons m ms a input w mid w1 output w2 :
    ModuleWrapper_arrow m = Some a ->
    virt_forward a input w = Return mid w1 ->
    pipeline_run ms mid w1 output w2 ->
    pipeline_run (m :: ms) input w output w2.

(** The diagram for [n] children, and the lines of the children of [s]. *)
Definition diagram (n : Z) : string :=
  " [input" +:+
  concat_strings (map (fun i => " -> (" +:+ pretty i +:+ ")") (seqZ 0 n)) +:+
  " -> output]".

Definition child_prettyString s (i : Z) : string :=
  match nth_Z (modules_ (self s)) i with
  | Some m =>
      match ModuleWrapper_arrow m with
      | Some a =>
          match virt_prettyString a (world s) with
          | Return name _ => name
          | _ => ""
          end
      | None => ""
      end
  | None => ""
  end.

(** Every child wrapper holds a module whose [prettyString] returns. *)
Definition children_printable s : Prop :=
  Forall (fun m => exists a name,
            ModuleWrapper_arrow m = Some a /\
            virt_prettyString a (world s) = Return name tt)
         (modules_ (self s)).

Definition child_lines s : string :=
  concat_strings
    (map (fun i => newline_tab +:+ "(" +:+ pretty i +:+ "): " +:+ child_prettyString s i)
         (seqZ 0 (size_Z (modules_ (self s))))).

End Vocabulary.

(** Two child wrappers correspond: an empty wrapper to an empty one, a
    shared wrapper to a shared one on the same module, a uniquely owned
    module to a uniquely owned module at another address, related by [R]. *)
Definition equal_wrappers (R : addr -> addr -> Prop) (m m' : ModuleWrapper) : Prop :=
  match m, m' with
  | Empty, Empty => True
  | Shared p, Shared p' => p = p'
  | Unique (Some b), Unique (Some b') => b <> b' /\ R b b'
  | _, _ => False
  end.

(** The modules at [a] and [a'] in the world [w] have equal structure, down
    to [depth] levels of containers: two layers with the same fields, or two
    containers with the same flat list, index map and mode whose children
    correspond one to one, the uniquely owned ones having equal structure in
    turn. *)
Fixpoint equal_structure (depth : nat) (w : World Object) (a a' : addr) : Prop :=
  match heap w !! a, heap w !! a' with
  | Some (a_layer l), Some (a_layer l') => l = l'
  | Some (a_sequential c), Some (a_sequential c') =>
      match depth with
      | O => False
      | S below =>
          params_ c = params_ c' /\ childParamIdx_ c = childParamIdx_ c' /\
          train_ c = train_ c' /\
          Forall2 (equal_wrappers (equal_structure below w)) (modules_ c) (modules_ c')
      end
  | _, _ => False
  end.

(** [c] is a clone of the module at [a], made in the world [w] and leaving
    the world [w']: a module at an address that was not in use in [w], with
    the structure of the one at [a]; every module of [w] is in [w'] as it
    was, and no gradient flag has changed. *)
Definition cloned (depth : nat) (a : addr) (w : World Object) (c : ptr) (w' : World Object)
  : Prop :=
  exists a', c = Some a' /\ a' <> a /\ heap w !! a' = None /\
             heap w ⊆ heap w' /\ calcGrad w' = calcGrad w /\
             equal_structure depth w' a a'.

(** * Vocabulary of the further properties *)

(** [m'] can be the copy of [m]: an empty wrapper is copied to an empty one,
    a shared one to itself, a unique one on a module to a unique one; a
    unique wrapper on no module has no copy. *)
Definition copy_of (m m' : ModuleWrapper) : Prop :=
  match m with
  | Empty => m' = Empty
  | Shared p => m' = Shared p
  | Unique (Some _) => holds_unique m' = true
  | Unique None => False
  end.

(** The state [s] with the children [ms] in place of its own. *)
Definition with_modules {Obj} (ms : list ModuleWrapper) (s : @State Obj) : @State Obj :=
  set_self (fun c => mkContainer ms (params_ c) (childParamIdx_ c) (train_ c)) s.

(** A module whose [train()] and [eval()] throw, and which does nothing
    else. *)
#[local] Instance Refusing_Module : Module unit := {|
  virt_clone _ := ret None;
  virt_train _ := throw invalid_argument;
  virt_eval _ := throw invalid_argument;
  virt_params _ _ := Return [] tt;
  virt_setParams _ _ _ := ret tt;
  virt_forward _ input := ret input;
  virt_prettyString _ _ := Return "Refusing" tt
|}.

(** The number of times the learning rate is scaled in a sequence of calls. *)
Definition scalings (calls : list driver_call) : nat :=
  length (filter (fun c => c = setLr_tenth) calls).

(** * Properties *)

(** ** The monad *)

Lemma bind_Return {S A B} (m : M S A) (k : A -> M S B) s a s' :
  m s = Return a s' -> bind m k s = k a s'.
Proof. intros E. unfold bind. now rewrite E. Qed.

Lemma bind_Throw {S A B} (m : M S A) (k : A -> M S B) s e s' :
  m s = Throw e s' -> bind m k s = Throw e s'.
Proof. intros E. unfold bind. now rewrite E. Qed.

Lemma bind_Undefined {S A B} (m : M S A) (k : A -> M S B) s u :
  m s = Undefined u -> bind m k s = Undefined u.
Proof. intros E. unfold bind. now rewrite E. Qed.

(** ** ModuleWrapper *)

(** C2.  [make_shared] on a wrapper that uniquely owns a module turns the
    wrapper into a shared one on the same pointer and returns that pointer
    (the module is moved, nothing is cloned: the function does not touch the
    heap); on a shared wrapper it returns the pointer and leaves the wrapper
    as it is; on an empty wrapper it returns the null pointer.  In every
    case the wrapper still refers to the module it referred to before, and
    the handle returned is that module. *)
Theorem make_shared_spec :
  (forall p, ModuleWrapper_make_shared (Unique p) = Return p (Shared p)) /\
  (forall p, ModuleWrapper_make_shared (Shared p) = Return p (Shared p)) /\
  ModuleWrapper_make_shared Empty = Return None Empty /\
  (forall w, exists w',
      ModuleWrapper_make_shared w = Return (ModuleWrapper_get w) w' /\
      ModuleWrapper_get w' = ModuleWrapper_get w /\
      holds_unique w' = false).
Proof.
  repeat split; try reflexivity.
  intros [|p|p]; eexists; repeat split; reflexivity.
Qed.

(** The boolean conversion is true exactly when [get()] is not null, and
    [get()] and [operator->] return the same pointer. *)
Theorem ModuleWrapper_bool_spec (w : ModuleWrapper) :
  (ModuleWrapper_bool w = true <-> ModuleWrapper_get w <> None) /\
  ModuleWrapper_arrow w = ModuleWrapper_get w.
Proof.
  split; [|now destruct w].
  destruct w as [|p|p]; simpl.
  - split; [discriminate|congruence].
  - apply bool_decide_eq_true.
  - apply bool_decide_eq_true.
Qed.

Section WrapperFacts.
Context {Obj : Type} `{!Module Obj}.

(** The copy constructor, case by case on the outcome of [clone]. *)
Lemma ModuleWrapper_copy_unique (a : addr) (w : World Obj) :
  ModuleWrapper_copy (Unique (Some a)) w =
  match virt_clone a w with
  | Return c w' => Return (Unique c) w'
  | Throw e w' => Throw e w'
  | Undefined u => Undefined u
  end.
Proof. simpl. unfold bind. destruct (virt_clone a w); reflexivity. Qed.

(** C10.  A wrapper built from a null unique pointer tests false, as the
    empty wrapper does, but the two are copied differently: copying the
    empty wrapper returns an empty wrapper, copying the null unique wrapper
    calls [clone()] through the null pointer.  That is the only way the copy
    constructor itself dereferences null: on every other wrapper it returns,
    or does what the [clone()] it calls does. *)
Theorem ModuleWrapper_copy_null_unique (w : World Obj) :
  ModuleWrapper_bool (ModuleWrapper_unique None) = false /\
  ModuleWrapper_bool Empty = false /\
  ModuleWrapper_copy (ModuleWrapper_unique None) w = Undefined null_dereference /\
  ModuleWrapper_copy Empty w = Return Empty w /\
  (forall other,
      other <> Unique None ->
      match other with
      | Unique (Some a) =>
          ModuleWrapper_copy other w =
          match virt_clone a w with
          | Return c w' => Return (Unique c) w'
          | Throw e w' => Throw e w'
          | Undefined u => Undefined u
          end
      | _ => ModuleWrapper_copy other w = Return other w
      end).
Proof.
  repeat split.
  intros [|[a|]|p] Hne; try reflexivity.
  congruence.
Qed.

End WrapperFacts.

(** *** Clones *)

Lemma equal_structure_unfold depth (w : World Object) a a' :
  equal_structure depth w a a' =
  match heap w !! a, heap w !! a' with
  | Some (a_layer l), Some (a_layer l') => l = l'
  | Some (a_sequential c), Some (a_sequential c') =>
      match depth with
      | O => False
      | S below =>
          params_ c = params_ c' /\ childParamIdx_ c = childParamIdx_ c' /\
          train_ c = train_ c' /\
          Forall2 (equal_wrappers (equal_structure below w)) (modules_ c) (modules_ c')
      end
  | _, _ => False
  end.
Proof. destruct depth; reflexivity. Qed.

Lemma equal_wrappers_impl (R R' : addr -> addr -> Prop) m m' :
  (forall b b', R b b' -> R' b b') -> equal_wrappers R m m' -> equal_wrappers R' m m'.
Proof.
  intros HR. destruct m as [|[b|]|p], m' as [|[b'|]|p']; simpl; try tauto.
  intros [Hne H]. split; [exact Hne|now apply HR].
Qed.

(** Equal structure is kept when modules are added to the world. *)
Lemma equal_structure_mono depth (w1 w2 : World Object) :
  heap w1 ⊆ heap w2 ->
  forall a a', equal_structure depth w1 a a' -> equal_structure depth w2 a a'.
Proof.
  intros Hsub. induction depth as [|below IH]; intros a a'; rewrite !equal_structure_unfold.
  - destruct (heap w1 !! a) as [o|] eqn:Ha; [|tauto].
    destruct (heap w1 !! a') as [o'|] eqn:Ha'; [|destruct o; tauto].
    rewrite (lookup_weaken _ _ _ _ Ha Hsub), (lookup_weaken _ _ _ _ Ha' Hsub). tauto.
  - destruct (heap w1 !! a) as [o|] eqn:Ha; [|tauto].
    destruct (heap w1 !! a') as [o'|] eqn:Ha'; [|destruct o; tauto].
    rewrite (lookup_weaken _ _ _ _ Ha Hsub), (lookup_weaken _ _ _ _ Ha' Hsub).
    destruct o as [l|c], o' as [l'|c']; try tauto.
    intros (Hp & Hi & Ht & Hms). repeat split; auto.
    eapply Forall2_impl; [exact Hms|].
    intros m m'. apply equal_wrappers_impl, IH.
Qed.

Lemma allocate_fresh (o : Object) (w : World Object) :
  exists a', allocate o w = Return (Some a') (store a' o w) /\ heap w !! a' = None.
Proof.
  exists (fresh (dom (heap w))). split; [reflexivity|].
  apply not_elem_of_dom, is_fresh.
Qed.

(** The copies of the children of a container that is cloned: when all of
    them are made, they correspond to the children one to one. *)
Lemma copy_children_Return (below : nat) :
  (forall b w c w', @virt_clone Object (Object_Module below) b w = Return c w' ->
                    cloned below b w c w') ->
  forall ms copies w res w1,
    fold_each ms (fun copies m =>
                    let* m' := @ModuleWrapper_copy Object (Object_Module below) m in
                    ret (copies ++ [m'])) copies w = Return res w1 ->
    heap w ⊆ heap w1 /\ calcGrad w1 = calcGrad w /\
    exists new, res = copies ++ new /\
                Forall2 (equal_wrappers (equal_structure below w1)) ms new.
Proof.
  intros Hclone. induction ms as [|m ms IH]; intros copies w res w1 E.
  - injection E as <- <-. split; [reflexivity|]. split; [reflexivity|].
    exists []. split; [now rewrite app_nil_r|constructor].
  - simpl in E. unfold bind at 1 in E. unfold bind at 1 in E.
    destruct m as [|[b|]|p]; simpl in E.
    + apply IH in E as (Hsub & Hg & new & -> & Hall).
      split; [exact Hsub|]. split; [exact Hg|].
      exists (Empty :: new). split; [now rewrite <- app_assoc|].
      constructor; [exact I|exact Hall].
    + unfold bind at 1 in E.
      destruct (virt_clone b w) as [c wm| |] eqn:Hc; try discriminate E.
      simpl in E. apply Hclone in Hc as (b' & -> & Hne & Hfresh & Hsub1 & Hg1 & Heq).
      apply IH in E as (Hsub & Hg & new & -> & Hall).
      split; [now transitivity (heap wm)|]. split; [congruence|].
      exists (Unique (Some b') :: new). split; [now rewrite <- app_assoc|].
      constructor; [|exact Hall].
      split; [congruence|]. eapply equal_structure_mono; eauto.
    + discriminate E.
    + apply IH in E as (Hsub & Hg & new & -> & Hall).
      split; [exact Hsub|]. split; [exact Hg|].
      exists (Shared p :: new). split; [now rewrite <- app_assoc|].
      constructor; [reflexivity|exact Hall].
Qed.

(** Whenever [clone()] of a module returns, what it returns is a clone. *)
Lemma virt_clone_cloned (stack : nat) :
  forall a w c w', @virt_clone Object (Object_Module stack) a w = Return c w' ->
                   cloned stack a w c w'.
Proof.
  induction stack as [|below IH]; intros a w c w' E.
  - simpl in E. unfold dispatch in E.
    destruct (heap w !! a) as [[l|k]|] eqn:Ha; try discriminate E.
    destruct (allocate_fresh (a_layer l) w) as (a' & Ealloc & Hfresh).
    rewrite Ealloc in E. injection E as <- <-.
    exists a'. split; [reflexivity|]. split; [congruence|]. split; [exact Hfresh|].
    split; [now apply insert_subseteq|]. split; [reflexivity|].
    rewrite equal_structure_unfold. simpl.
    rewrite lookup_insert_ne by congruence. rewrite Ha, lookup_insert_eq. reflexivity.
  - simpl in E. unfold dispatch in E.
    destruct (heap w !! a) as [[l|k]|] eqn:Ha; try discriminate E.
    + destruct (allocate_fresh (a_layer l) w) as (a' & Ealloc & Hfresh).
      rewrite Ealloc in E. injection E as <- <-.
      exists a'. split; [reflexivity|]. split; [congruence|]. split; [exact Hfresh|].
      split; [now apply insert_subseteq|]. split; [reflexivity|].
      rewrite equal_structure_unfold. simpl.
      rewrite lookup_insert_ne by congruence. rewrite Ha, lookup_insert_eq. reflexivity.
    + unfold Sequential_clone in E. unfold bind at 1 in E.
      destruct (fold_each _ _ _ w) as [ms w1| |] eqn:Hfold; try discriminate E.
      apply (copy_children_Return below IH) in Hfold as (Hsub & Hg & new & -> & Hall).
      simpl in Hall.
      match type of E with allocate ?o _ = _ =>
        destruct (allocate_fresh o w1) as (a' & Ealloc & Hfresh) end.
      rewrite Ealloc in E. injection E as <- <-.
      pose proof (lookup_weaken _ _ _ _ Ha Hsub) as Ha1.
      exists a'. split; [reflexivity|]. split; [congruence|].
      split; [eapply lookup_weaken_None; eauto|].
      split; [etransitivity; [exact Hsub|now apply insert_subseteq]|].
      split; [exact Hg|].
      rewrite equal_structure_unfold. simpl.
      rewrite lookup_insert_ne by congruence. rewrite Ha1, lookup_insert_eq.
      repeat split.
      eapply Forall2_impl; [exact Hall|].
      intros m m'. apply equal_wrappers_impl. apply equal_structure_mono.
      now apply insert_subseteq.
Qed.

(** C5.  The copy constructor dispatches on the ownership tag.  For every
    implementation of the modules: a wrapper that uniquely owns the module
    at [a] is copied by that module's [clone()], and the copy uniquely owns
    what [clone()] returned, in the world [clone()] left; a shared wrapper is
    copied to a shared wrapper on the same pointer, the world untouched; an
    empty wrapper is copied to an empty one.  With the [clone()] of the
    spec: whenever the copy of a uniquely owning wrapper returns, it
    uniquely owns a module at an address that was not in use before the
    copy, so it is another instance than the source and than every module
    there was; that module has the structure of the source (the same fields,
    its uniquely owned children cloned in turn, its shared children
    shared); and every module there was, the source among them, is as it
    was.  The copy of a wrapper on a layer always returns. *)
Theorem ModuleWrapper_copy_spec :
  (forall (Obj : Type) (impl : Module Obj) (w : World Obj),
      (forall a, ModuleWrapper_copy (Unique (Some a)) w =
                 match virt_clone a w with
                 | Return c w' => Return (Unique c) w'
                 | Throw e w' => Throw e w'
                 | Undefined u => Undefined u
                 end) /\
      (forall p, ModuleWrapper_copy (Shared p) w = Return (Shared p) w) /\
      ModuleWrapper_copy Empty w = Return Empty w) /\
  (forall (stack : nat) (w : World Object) (a : addr) copy w',
      @ModuleWrapper_copy Object (Object_Module stack) (Unique (Some a)) w = Return copy w' ->
      exists a',
        copy = Unique (Some a') /\
        ModuleWrapper_get copy <> ModuleWrapper_get (Unique (Some a)) /\
        heap w !! a' = None /\
        heap w ⊆ heap w' /\ calcGrad w' = calcGrad w /\
        equal_structure stack w' a a') /\
  (forall (stack : nat) (w : World Object) (a : addr) (l : Layer),
      heap w !! a = Some (a_layer l) ->
      exists a',
        @ModuleWrapper_copy Object (Object_Module stack) (Unique (Some a)) w =
        Return (Unique (Some a')) (store a' (a_layer l) w)).
Proof.
  split; [|split].
  - intros Obj impl w. split; [|split; reflexivity].
    intros a. apply ModuleWrapper_copy_unique.
  - intros stack w a copy w' E. rewrite ModuleWrapper_copy_unique in E.
    destruct (virt_clone a w) as [c w1| |] eqn:Hc; try discriminate E.
    injection E as <- <-.
    apply virt_clone_cloned in Hc as (a' & -> & Hne & Hfresh & Hsub & Hg & Heq).
    exists a'. repeat split; auto. simpl. congruence.
  - intros stack w a l Ha.
    destruct (allocate_fresh (a_layer l) w) as (a' & Ealloc & _).
    exists a'. rewrite ModuleWrapper_copy_unique.
    assert (@virt_clone Object (Object_Module stack) a w = allocate (a_layer l) w) as ->.
    { destruct stack; simpl; unfold dispatch; now rewrite Ha. }
    now rewrite Ealloc.
Qed.

(** The copy of a wrapper on the container stored at address 5, whose
    children are the uniquely owned layer at 1 and the shared layer at 3:
    the clone of the container is allocated at 7, after the clone of its
    first child at 6; the second child of the clone is the shared layer at 3
    itself. *)
Lemma ModuleWrapper_copy_spec_witness :
  exists w',
    ModuleWrapper_copy (Unique (Some 5%positive)) (world nested) =
    Return (Unique (Some 7%positive)) w' /\
    heap (world nested) !! 7%positive = None /\
    heap (world nested) ⊆ heap w' /\
    equal_structure 4 w' 5%positive 7%positive /\
    (exists c', heap w' !! 7%positive = Some (a_sequential c') /\
                modules_ c' = [Unique (Some 6%positive); Shared (Some 3%positive)]) /\
    heap w' !! 6%positive = heap w' !! 1%positive.
Proof.
  destruct (@ModuleWrapper_copy Object Object_stack (Unique (Some 5%positive)) (world nested))
    as [copy w'| |] eqn:E; [|vm_compute in E; discriminate E..].
  destruct (proj1 (proj2 ModuleWrapper_copy_spec) 4 (world nested) 5%positive copy w' E)
    as (a' & Hcopy & _ & Hfresh & Hsub & _ & Heq).
  vm_compute in E. injection E as Ecopy Ew'. subst copy.
  injection Hcopy as <-.
  exists w'. split; [reflexivity|]. split; [exact Hfresh|]. split; [exact Hsub|].
  split; [exact Heq|]. subst w'. split.
  - eexists. split; vm_compute; reflexivity.
  - vm_compute. reflexivity.
Defined.

(** ** Vector indexing *)

Lemma nth_Z_Some {A} (l : list A) (i : Z) (x : A) :
  nth_Z l i = Some x -> (0 ≤ i < size_Z l)%Z.
Proof.
  unfold nth_Z, size_Z. destruct (decide (0 ≤ i)%Z) as [H|H]; [|discriminate].
  intros E. apply lookup_lt_Some in E. lia.
Qed.

Lemma nth_Z_in_range {A} (l : list A) (i : Z) :
  (0 ≤ i < size_Z l)%Z -> is_Some (nth_Z l i).
Proof.
  unfold nth_Z, size_Z. intros H. destruct (decide (0 ≤ i)%Z); [|lia].
  apply lookup_lt_is_Some. lia.
Qed.

Lemma nth_Z_None {A} (l : list A) (i : Z) :
  nth_Z l i = None <-> ~ (0 ≤ i < size_Z l)%Z.
Proof.
  split.
  - intros E H. apply nth_Z_in_range in H. rewrite E in H. now destruct H.
  - intros H. destruct (nth_Z l i) eqn:E; [|reflexivity].
    apply nth_Z_Some in E. contradiction.
Qed.

Lemma nth_Z_insert {A} (l : list A) (i : Z) (x y : A) :
  nth_Z l i = Some y -> nth_Z (<[Z.to_nat i := x]> l) i = Some x.
Proof.
  intros E. pose proof (nth_Z_Some _ _ _ E) as H. unfold nth_Z, size_Z in *.
  destruct (decide (0 ≤ i)%Z); [|lia].
  apply list_lookup_insert_eq. lia.
Qed.

(** ** Container: indexing and setParams *)

Section ContainerFacts.
Context {Obj : Type} `{!Module Obj}.
Implicit Types s : @State Obj.

Lemma Module_setParams_valid s var position old :
  nth_Z (params_ (self s)) position = Some old ->
  Module_setParams var position s = Return tt (params_written var position s).
Proof.
  intros E. unfold Module_setParams, bind, gets. rewrite E. reflexivity.
Qed.

Lemma Module_setParams_invalid s var position :
  nth_Z (params_ (self s)) position = None ->
  Module_setParams var position s = Throw out_of_range s.
Proof.
  intros E. unfold Module_setParams, bind, gets. rewrite E. reflexivity.
Qed.

(** C1, as the code has it.  [module(id)] indexes the children without a
    bounds check: within range it returns the wrapper at [id] and leaves the
    state alone, outside the range no out-of-range condition is raised and
    the behaviour is undefined.  [setParams] at a position outside the flat
    parameter list throws out_of_range from the base write, and the state at
    the throw is the state before the call. *)
Theorem Container_invalid_index s :
  (forall id, (0 ≤ id < size_Z (modules_ (self s)))%Z ->
     exists m, nth_Z (modules_ (self s)) id = Some m /\ Container_module id s = Return m s) /\
  (forall id, ~ (0 ≤ id < size_Z (modules_ (self s)))%Z ->
     Container_module id s = Undefined index_out_of_bounds) /\
  (forall var position, ~ (0 ≤ position < size_Z (params_ (self s)))%Z ->
     Container_setParams var position s = Throw out_of_range s).
Proof.
  split; [|split].
  - intros id Hid. destruct (nth_Z_in_range _ _ Hid) as [m Hm]. exists m. split; [exact Hm|].
    unfold Container_module, modules_index, bind, gets. rewrite Hm. reflexivity.
  - intros id Hid. apply nth_Z_None in Hid.
    unfold Container_module, modules_index, bind, gets. rewrite Hid. reflexivity.
  - intros var position Hpos. apply nth_Z_None in Hpos.
    unfold Container_setParams. apply bind_Throw. now apply Module_setParams_invalid.
Qed.

(** [setParams] at a valid position, by the index-map entry of the
    position. *)
Lemma Container_setParams_valid s var position old :
  nth_Z (params_ (self s)) position = Some old ->
  Container_setParams var position s =
  match childParamIdx_ (self s) !! position with
  | None => Return tt (params_written var position s)
  | Some (midx, pidx) =>
      match nth_Z (modules_ (self s)) midx with
      | None => Undefined index_out_of_bounds
      | Some m =>
          match ModuleWrapper_arrow m with
          | None => Undefined null_dereference
          | Some a => lift_world (virt_setParams a var pidx) (params_written var position s)
          end
      end
  end.
Proof.
  intros Hold. unfold Container_setParams.
  rewrite (bind_Return _ _ _ _ _ (Module_setParams_valid s var position old Hold)).
  unfold bind, gets. simpl.
  destruct (childParamIdx_ (self s) !! position) as [[midx pidx]|]; [|reflexivity].
  unfold modules_index, bind, gets. simpl.
  destruct (nth_Z (modules_ (self s)) midx) as [m|]; [|reflexivity].
  unfold ret, call. destruct (ModuleWrapper_arrow m); reflexivity.
Qed.

(** A call of [setParams] that returns was made at a valid position, and
    has changed no field of the container but that position of the flat
    list. *)
Lemma Container_setParams_Return s var position s' :
  Container_setParams var position s = Return tt s' ->
  (exists old, nth_Z (params_ (self s)) position = Some old) /\
  self s' = self (params_written var position s).
Proof.
  intros E. destruct (nth_Z (params_ (self s)) position) as [old|] eqn:Hold.
  - split; [eauto|]. rewrite (Container_setParams_valid s var position old Hold) in E.
    destruct (childParamIdx_ (self s) !! position) as [[midx pidx]|].
    + destruct (nth_Z (modules_ (self s)) midx) as [m|]; [|discriminate E].
      destruct (ModuleWrapper_arrow m) as [a|]; [|discriminate E].
      unfold lift_world in E.
      destruct (virt_setParams a var pidx _) as [[] w1| |]; try discriminate E.
      injection E as <-. reflexivity.
    + injection E as <-. reflexivity.
  - unfold Container_setParams in E.
    rewrite (bind_Throw _ _ _ _ _ (Module_setParams_invalid s var position Hold)) in E.
    discriminate E.
Qed.

(** When the write-through fails, the flat list is already written: the
    exception of the child's [setParams] leaves [setParams] of the container
    with the new variable in the flat list. *)
Theorem Container_setParams_child_failure s var position old midx pidx m a e w' :
  nth_Z (params_ (self s)) position = Some old ->
  childParamIdx_ (self s) !! position = Some (midx, pidx) ->
  nth_Z (modules_ (self s)) midx = Some m ->
  ModuleWrapper_arrow m = Some a ->
  virt_setParams a var pidx (world s) = Throw e w' ->
  Container_setParams var position s =
    Throw e (mkState (self (params_written var position s)) w') /\
  nth_Z (params_ (self (params_written var position s))) position = Some var.
Proof.
  intros Hold Hidx Hm Ha Hchild. split; [|eapply nth_Z_insert, Hold].
  unfold Container_setParams.
  rewrite (bind_Return _ _ _ _ _ (Module_setParams_valid s var position old Hold)).
  unfold bind, gets. simpl. rewrite Hidx.
  unfold modules_index, bind, gets. simpl. rewrite Hm.
  unfold ret, call. rewrite Ha. unfold lift_world. simpl. now rewrite Hchild.
Qed.

End ContainerFacts.

(** [setParams(99, 0)] on [skewed]: the layer has no parameter 7 and throws,
    and the container is left with 99 at position 0 of its flat list. *)
Lemma Container_setParams_child_failure_witness :
  Container_setParams 99 0 skewed =
  Throw out_of_range
        (mkState (mkContainer [Unique (Some 1%positive)] [99; 11] (<[0%Z := (0%Z, 7%Z)]> ∅) true)
                 two_layers).
Proof.
  apply (Container_setParams_child_failure skewed 99 0 10 0 7
           (Unique (Some 1%positive)) 1%positive out_of_range two_layers);
    reflexivity.
Defined.

(** [module(2)] on a container with two children is neither an exception nor
    a return. *)
Lemma Container_module_invalid_index_counterexample :
  ~ (0 ≤ 2 < size_Z (modules_ (self sample)))%Z /\
  Container_module 2 sample = Undefined index_out_of_bounds /\
  Container_module 2 sample <> Throw out_of_range sample.
Proof.
  split; [|split].
  - vm_compute. intros [_ H]. discriminate H.
  - reflexivity.
  - discriminate.
Qed.

(** The parameters a module reports after its [setParams] returned: the
    variable is at the index it was set at. *)
Lemma virt_setParams_stored (stack : nat) (a : addr) var pidx (w w' : World Object) :
  @virt_setParams Object (Object_Module stack) a var pidx w = Return tt w' ->
  exists ps, @virt_params Object (Object_Module stack) a w' = Return ps tt /\
             nth_Z ps pidx = Some var.
Proof.
  intros E.
  assert (forall w0, @virt_params Object (Object_Module stack) a w0 =
            forget (dispatch a (fun l => ret (layer_params l)) (fun c => ret (params_ c)) w0))
    as Hparams by (destruct stack; reflexivity).
  assert (@virt_setParams Object (Object_Module stack) a var pidx w =
          dispatch a (Layer_setParams a var pidx)
            (run_sequential (match stack with
                             | O => None
                             | S below => Some (Object_Module below)
                             end) a
               (fun below => @Container_setParams Object below var pidx)) w) as Hset
    by (destruct stack; reflexivity).
  rewrite Hset in E. clear Hset. unfold dispatch in E.
  destruct (heap w !! a) as [[l|c]|] eqn:Ha; try discriminate E.
  - unfold Layer_setParams in E.
    destruct (nth_Z (layer_params l) pidx) as [old|] eqn:Hold; [|discriminate E].
    injection E as <-. eexists. rewrite Hparams. unfold dispatch, store. simpl.
    rewrite lookup_insert_eq. split; [reflexivity|]. simpl.
    eapply nth_Z_insert, Hold.
  - unfold run_sequential in E. destruct stack as [|below]; [discriminate E|].
    destruct (Container_setParams var pidx _) as [[] s2| |] eqn:Hc; try discriminate E.
    injection E as <-.
    apply Container_setParams_Return in Hc as ([old Hold] & Hself).
    eexists. rewrite Hparams. unfold dispatch, store. simpl.
    rewrite lookup_insert_eq. split; [reflexivity|]. simpl.
    rewrite Hself. simpl. eapply nth_Z_insert, Hold.
Qed.

(** C4, as the code has it.  At a valid position [setParams] first writes
    [var] into the flat list, and touches nothing else of the container.  If
    the index map has no entry for the position, that is all: the world, and
    with it every child, is as before.  If the index map sends the position
    to [(midx, pidx)], the call goes on to child [midx] through the unchecked
    index and the unchecked pointer: an entry that names no child, or a child
    wrapper that holds no module, is undefined behaviour; otherwise the
    outcome is that of [setParams(var, pidx)] of the child, run in the state
    in which the flat list is already written.  For the children of the
    spec: whenever the call returns, the flat list at [position] and the
    parameter list of the child at [pidx] both hold [var]; on a layer it
    returns when [pidx] is one of the layer's positions, and otherwise the
    out_of_range of the layer leaves the call with the flat list written and
    the layer as it was. *)
Theorem Container_setParams_spec :
  (forall (Obj : Type) (impl : Module Obj) (s : @State Obj) var position,
     (0 ≤ position < size_Z (params_ (self s)))%Z ->
     nth_Z (params_ (self (params_written var position s))) position = Some var /\
     world (params_written var position s) = world s /\
     (childParamIdx_ (self s) !! position = None ->
      Container_setParams var position s = Return tt (params_written var position s)) /\
     (forall midx pidx,
        childParamIdx_ (self s) !! position = Some (midx, pidx) ->
        Container_setParams var position s =
        match nth_Z (modules_ (self s)) midx with
        | None => Undefined index_out_of_bounds
        | Some m =>
            match ModuleWrapper_arrow m with
            | None => Undefined null_dereference
            | Some a => lift_world (virt_setParams a var pidx) (params_written var position s)
            end
        end)) /\
  (forall (stack : nat) (s : @State Object) var position midx pidx m a,
     (0 ≤ position < size_Z (params_ (self s)))%Z ->
     childParamIdx_ (self s) !! position = Some (midx, pidx) ->
     nth_Z (modules_ (self s)) midx = Some m ->
     ModuleWrapper_arrow m = Some a ->
     (forall s',
        @Container_setParams Object (Object_Module stack) var position s = Return tt s' ->
        nth_Z (params_ (self s')) position = Some var /\
        exists ps, @virt_params Object (Object_Module stack) a (world s') = Return ps tt /\
                   nth_Z ps pidx = Some var) /\
     (forall l, heap (world s) !! a = Some (a_layer l) ->
        @Container_setParams Object (Object_Module stack) var position s =
        match nth_Z (layer_params l) pidx with
        | Some _ =>
            Return tt
              (mkState (self (params_written var position s))
                 (store a (a_layer (mkLayer (<[Z.to_nat pidx := var]> (layer_params l))
                                            (layer_train l) (layer_name l) (layer_forward l)))
                        (world s)))
        | None => Throw out_of_range (params_written var position s)
        end)).
Proof.
  split.
  - intros Obj impl s var position Hpos.
    destruct (nth_Z_in_range _ _ Hpos) as [old Hold].
    pose proof (Container_setParams_valid s var position old Hold) as Hcall.
    split; [eapply nth_Z_insert, Hold|]. split; [reflexivity|]. split.
    + intros Hnone. now rewrite Hnone in Hcall.
    + intros midx pidx Hidx. now rewrite Hidx in Hcall.
  - intros stack s var position midx pidx m a Hpos Hidx Hm Ha.
    destruct (nth_Z_in_range _ _ Hpos) as [old Hold].
    pose proof (@Container_setParams_valid Object (Object_Module stack) s var position old Hold)
      as Hcall.
    rewrite Hidx, Hm, Ha in Hcall. split.
    + intros s' E. split.
      * apply Container_setParams_Return in E as (_ & ->). eapply nth_Z_insert, Hold.
      * rewrite Hcall in E. unfold lift_world in E. simpl in E.
        destruct (virt_setParams a var pidx (world s)) as [[] w1| |] eqn:Hc; try discriminate E.
        injection E as <-. simpl. eapply virt_setParams_stored, Hc.
    + intros l Hl. rewrite Hcall. unfold lift_world. simpl.
      assert (@virt_setParams Object (Object_Module stack) a var pidx (world s) =
              Layer_setParams a var pidx l (world s)) as ->.
      { destruct stack; simpl; unfold dispatch; now rewrite Hl. }
      unfold Layer_setParams. destruct (nth_Z (layer_params l) pidx); reflexivity.
Qed.

(** Two valid positions that the index map covers, at which nothing is
    written through.  On [skewed], position 0 is mapped to the local index 7
    of a layer with two parameters: [setParams(99, 0)] throws out_of_range
    with 99 in the flat list and the layer still holding 10 and 11.  On
    [misindexed], position 1 is mapped to child 6 of a container with one
    child: [setParams(99, 1)] indexes the children out of bounds. *)
Lemma Container_setParams_spec_counterexample :
  ((0 ≤ 0 < size_Z (params_ (self skewed)))%Z /\
   childParamIdx_ (self skewed) !! 0%Z = Some (0%Z, 7%Z) /\
   Container_setParams 99 0 skewed =
     Throw out_of_range
       (mkState (mkContainer [Unique (Some 1%positive)] [99; 11] (<[0%Z := (0%Z, 7%Z)]> ∅) true)
                two_layers) /\
   virt_params 1%positive two_layers = Return [10; 11] tt /\
   ~ (exists s', Container_setParams 99 0 skewed = Return tt s')) /\
  ((0 ≤ 1 < size_Z (params_ (self misindexed)))%Z /\
   childParamIdx_ (self misindexed) !! 1%Z = Some (6%Z, 0%Z) /\
   Container_setParams 99 1 misindexed = Undefined index_out_of_bounds /\
   ~ (exists s', Container_setParams 99 1 misindexed = Return tt s')).
Proof.
  split.
  - split; [vm_compute; split; [discriminate|reflexivity]|].
    split; [reflexivity|]. split; [reflexivity|]. split; [reflexivity|].
    intros [s' E]. discriminate E.
  - split; [vm_compute; split; [discriminate|reflexivity]|].
    split; [reflexivity|]. split; [reflexivity|].
    intros [s' E]. discriminate E.
Qed.

(** [setParams(99, 1)] on the sample container: position 1 is parameter 1 of
    child 0, a layer, so the call returns and both lists hold 99 there.
    [setParams(99, 1)] on [nested], whose only child is the container stored
    at address 5: the call returns, and the flat list of [nested] and that of
    its child both hold 99 at position 1. *)
Lemma Container_setParams_spec_witness :
  (exists s',
     Container_setParams 99 1 sample = Return tt s' /\
     params_ (self s') = [10; 99; 12; 13] /\
     virt_params 1%positive (world s') = Return [10; 99] tt) /\
  (exists s',
     Container_setParams 99 1 nested = Return tt s' /\
     nth_Z (params_ (self s')) 1 = Some 99 /\
     exists ps, virt_params 5%positive (world s') = Return ps tt /\ nth_Z ps 1 = Some 99).
Proof.
  split.
  - destruct (proj2 Container_setParams_spec 4 sample 99 1%Z 0%Z 1%Z
                (Unique (Some 1%positive)) 1%positive) as [_ Hlayer];
      [vm_compute; split; [discriminate|reflexivity]|reflexivity..|].
    unfold Object_stack. eexists. split; [|split].
    + rewrite (Hlayer (mkLayer [10; 11] false "Linear" id) eq_refl). reflexivity.
    + reflexivity.
    + reflexivity.
  - destruct (@Container_setParams Object Object_stack 99 1 nested) as [[] s'| |] eqn:E;
      [|vm_compute in E; discriminate E..].
    exists s'. split; [reflexivity|].
    exact (proj1 (proj2 Container_setParams_spec 4 nested 99 1%Z 0%Z 1%Z
                    (Unique (Some 5%positive)) 5%positive
                    ltac:(vm_compute; split; [discriminate|reflexivity])
                    eq_refl eq_refl eq_refl) s' E).
Defined.

(** ** Container: train and eval *)

Section ModeFacts.
Context {Obj : Type} `{!Module Obj}.
Implicit Types (s : @State Obj) (w : World Obj) (c : Container).

Lemma flag_loop_run (b : bool) c (l : list Z) w :
  Forall (fun i => (0 ≤ i < size_Z (params_ c))%Z) l ->
  for_each l (fun i =>
    let* idx := gets (fun s => childParamIdx_ (self s)) in
    if decide (idx !! i = None) then params_setCalcGrad i b else ret tt) (mkState c w)
  = Return tt (mkState c (foldl (flag_step b c) w l)).
Proof.
  intros Hl. revert w. induction Hl as [|i l Hi _ IH]; intros w; simpl.
  - reflexivity.
  - unfold bind at 1. unfold bind at 1. unfold gets at 1. simpl.
    unfold flag_step at 2.
    destruct (decide (childParamIdx_ c !! i = None)) as [Hn|Hn].
    + destruct (nth_Z_in_range _ _ Hi) as [v Hv].
      unfold params_setCalcGrad, bind, gets. simpl. rewrite Hv. simpl.
      apply IH.
    + simpl. apply IH.
Qed.

Lemma flag_loop_heap (b : bool) c (l : list Z) w :
  heap (foldl (flag_step b c) w l) = heap w.
Proof.
  revert w. induction l as [|i l IH]; intros w; simpl; [reflexivity|].
  rewrite IH. unfold flag_step.
  destruct (decide _); [|reflexivity]. destruct (nth_Z _ _); reflexivity.
Qed.

Lemma flag_loop_keeps (b : bool) c (l : list Z) w v :
  calcGrad w !! v = Some b -> calcGrad (foldl (flag_step b c) w l) !! v = Some b.
Proof.
  revert w. induction l as [|i l IH]; intros w Hv; simpl; [exact Hv|].
  apply IH. unfold flag_step.
  destruct (decide _); [|exact Hv]. destruct (nth_Z _ _) as [v'|]; [|exact Hv].
  simpl. destruct (decide (v' = v)) as [->|Hne].
  - apply lookup_insert_eq.
  - rewrite lookup_insert_ne; auto.
Qed.

Lemma flag_loop_sets (b : bool) c (l : list Z) w i v :
  i ∈ l -> nth_Z (params_ c) i = Some v -> childParamIdx_ c !! i = None ->
  calcGrad (foldl (flag_step b c) w l) !! v = Some b.
Proof.
  intros Hin Hv Hn. revert w. induction Hin as [i l|i j l _ IH]; intros w; simpl.
  - apply flag_loop_keeps. unfold flag_step. rewrite Hv.
    destruct (decide _); [|contradiction]. simpl. apply lookup_insert_eq.
  - apply IH; assumption.
Qed.

Lemma flag_loop_frame (b : bool) c (l : list Z) w v :
  (forall i, nth_Z (params_ c) i = Some v -> childParamIdx_ c !! i <> None) ->
  calcGrad (foldl (flag_step b c) w l) !! v = calcGrad w !! v.
Proof.
  intros Hv. revert w. induction l as [|i l IH]; intros w; simpl; [reflexivity|].
  rewrite IH. unfold flag_step.
  destruct (decide _) as [Hn|]; [|reflexivity].
  destruct (nth_Z _ _) as [v'|] eqn:E; [|reflexivity].
  simpl. apply lookup_insert_ne. intros ->. exact (Hv i E Hn).
Qed.

(** The loop over the container's own parameters always returns; it changes
    nothing of the container and flags exactly its own parameters. *)
Lemma own_params_loop_run (b : bool) s :
  own_params_loop b s = Return tt (mkState (self s) (flag_own_params b (self s) (world s))).
Proof.
  destruct s as [c w]. simpl.
  unfold own_params_loop, bind at 1, gets at 1. simpl.
  apply flag_loop_run. apply Forall_forall. intros i Hi.
  apply elem_of_seqZ in Hi. lia.
Qed.

Lemma flag_own_params_flagged (b : bool) c w :
  own_flagged b c w (flag_own_params b c w).
Proof.
  split; [apply flag_loop_heap|split].
  - intros i v Hv Hn. eapply flag_loop_sets; eauto.
    apply nth_Z_Some in Hv. apply elem_of_seqZ. lia.
  - intros v Hv. now apply flag_loop_frame.
Qed.

Lemma children_run_for_each (f : addr -> M (World Obj) unit) c ms w w' :
  children_run f ms w w' ->
  for_each ms (fun m => call (ModuleWrapper_arrow m) f) (mkState c w) = Return tt (mkState c w').
Proof.
  induction 1 as [w|m ms a w w1 w2 Ha Hf _ IH]; simpl.
  - reflexivity.
  - unfold bind, call. rewrite Ha. unfold lift_world. simpl. rewrite Hf. exact IH.
Qed.

Lemma for_each_children_run (f : addr -> M (World Obj) unit) c ms w s1 :
  for_each ms (fun m => call (ModuleWrapper_arrow m) f) (mkState c w) = Return tt s1 <->
  self s1 = c /\ children_run f ms w (world s1).
Proof.
  split.
  - revert w. induction ms as [|m ms IH]; intros w E; simpl in E.
    + injection E as <-. split; [reflexivity|constructor].
    + unfold bind, call in E. destruct (ModuleWrapper_arrow m) as [a|] eqn:Ha; [|discriminate E].
      unfold lift_world in E. simpl in E.
      destruct (f a w) as [[] w1| |] eqn:Hf; try discriminate E.
      destruct (IH _ E) as [Hself Hrun]. split; [exact Hself|].
      econstructor; eauto.
  - intros [<- Hrun]. destruct s1 as [c1 w1]. now apply children_run_for_each.
Qed.

(** C3.  [train()] sets the mode flag, then flags the container's own
    parameters (those at positions without an index-map entry, and no
    others) as tracking gradients, and then, from the state so reached,
    calls [train()] on the children in order: its outcome is the outcome of
    that loop over the children, and it returns exactly when every child
    call returns in turn, with the world the last child left and with no
    field of the container changed but the mode flag.  [eval()] is the same
    with the mode flag cleared, the same parameters flagged as not tracking,
    and [eval()] called on the children. *)
Theorem Container_train_eval_spec s :
  own_flagged true (self s) (world s) (flag_own_params true (self s) (world s)) /\
  own_flagged false (self s) (world s) (flag_own_params false (self s) (world s)) /\
  Container_train s =
    for_each (modules_ (self s)) (fun m => call (ModuleWrapper_arrow m) virt_train)
             (mkState (set_train_ true (self s)) (flag_own_params true (self s) (world s))) /\
  Container_eval s =
    for_each (modules_ (self s)) (fun m => call (ModuleWrapper_arrow m) virt_eval)
             (mkState (set_train_ false (self s)) (flag_own_params false (self s) (world s))) /\
  (forall s1,
     Container_train s = Return tt s1 <->
     self s1 = set_train_ true (self s) /\
     children_run virt_train (modules_ (self s))
                  (flag_own_params true (self s) (world s)) (world s1)) /\
  (forall s1,
     Container_eval s = Return tt s1 <->
     self s1 = set_train_ false (self s) /\
     children_run virt_eval (modules_ (self s))
                  (flag_own_params false (self s) (world s)) (world s1)).
Proof.
  assert (Container_train s =
          for_each (modules_ (self s)) (fun m => call (ModuleWrapper_arrow m) virt_train)
                   (mkState (set_train_ true (self s))
                            (flag_own_params true (self s) (world s)))) as Htrain.
  { unfold Container_train. unfold bind at 1, modify at 1.
    rewrite (bind_Return _ _ _ _ _ (own_params_loop_run true _)). reflexivity. }
  assert (Container_eval s =
          for_each (modules_ (self s)) (fun m => call (ModuleWrapper_arrow m) virt_eval)
                   (mkState (set_train_ false (self s))
                            (flag_own_params false (self s) (world s)))) as Heval.
  { unfold Container_eval. unfold bind at 1, modify at 1.
    rewrite (bind_Return _ _ _ _ _ (own_params_loop_run false _)). reflexivity. }
  split; [apply flag_own_params_flagged|].
  split; [apply flag_own_params_flagged|].
  split; [exact Htrain|]. split; [exact Heval|]. split.
  - intros s1. rewrite Htrain. apply for_each_children_run.
  - intros s1. rewrite Heval. apply for_each_children_run.
Qed.

End ModeFacts.

(** [train()] and then [eval()] on the tree of depth two.  [train()] reaches
    every module of the tree: the outer container, the inner one at address
    5 and the layers below it are in training mode, and the variables track
    gradients, 14 through the loop of the outer container, 13 through that
    of the inner one, 12 through its layer.  [eval()] undoes all of it. *)
Lemma Container_train_eval_spec_witness :
  exists s1 s2,
    Container_train nested = Return tt s1 /\
    Container_eval s1 = Return tt s2 /\
    train_ (self s1) = true /\ train_ (self s2) = false /\
    heap (world s1) !! 5%positive = Some (a_sequential (set_train_ true sample_container)) /\
    heap (world s2) !! 5%positive = Some (a_sequential (set_train_ false sample_container)) /\
    heap (world s1) !! 3%positive = Some (a_layer (mkLayer [12] true "ReLU" id)) /\
    heap (world s2) !! 3%positive = Some (a_layer (mkLayer [12] false "ReLU" id)) /\
    (calcGrad (world s1) !! 14, calcGrad (world s1) !! 13, calcGrad (world s1) !! 12) =
      (Some true, Some true, Some true) /\
    (calcGrad (world s2) !! 14, calcGrad (world s2) !! 13, calcGrad (world s2) !! 12) =
      (Some false, Some false, Some false).
Proof.
  destruct (Container_train_eval_spec nested) as (_ & _ & _ & _ & Htrain & _).
  eexists (mkState _ _). eexists (mkState _ _). split.
  - apply Htrain. split; [reflexivity|]. simpl.
    eapply children_run_cons; [reflexivity|vm_compute; reflexivity|].
    apply children_run_nil.
  - match goal with
    | |- Container_eval ?s1 = _ /\ _ =>
        destruct (Container_train_eval_spec s1) as (_ & _ & _ & _ & _ & Heval)
    end.
    split.
    + apply Heval. split; [reflexivity|]. simpl.
      eapply children_run_cons; [reflexivity|vm_compute; reflexivity|].
      apply children_run_nil.
    + vm_compute. repeat split; reflexivity.
Defined.

(** ** Container: the scan for orphaned parameters *)

Section OrphanFacts.
Context {Obj : Type} `{!Module Obj}.
Implicit Types (s : @State Obj) (i p prev k : Z).

Lemma orphaned_loop_unfold fuel i prev acc s :
  orphaned_loop (S fuel) i prev acc s =
  if decide (i < size_Z (params_ (self s)))%Z then
    match childParamIdx_ (self s) !! i with
    | Some (midx, pidx) =>
        match nth_Z (modules_ (self s)) midx with
        | Some m =>
            match ModuleWrapper_arrow m with
            | Some a =>
                match virt_params a (world s) with
                | Return ps _ => orphaned_loop fuel (i + size_Z ps) midx acc s
                | Throw e _ => Throw e s
                | Undefined u => Undefined u
                end
            | None => Undefined null_dereference
            end
        | None => Throw out_of_range s
        end
    | None => orphaned_loop fuel (i + 1) prev (acc ⊎ {[+ (prev, i) +]}) s
    end
  else Return (Some acc) s.
Proof.
  simpl. unfold bind at 1, gets at 1.
  destruct (decide _); [|reflexivity].
  unfold bind at 1, gets at 1.
  destruct (childParamIdx_ (self s) !! i) as [[midx pidx]|]; [|reflexivity].
  unfold modules_at, bind, gets.
  destruct (nth_Z (modules_ (self s)) midx) as [m|]; [|reflexivity].
  unfold ret, call_const.
  destruct (ModuleWrapper_arrow m) as [a|]; [|reflexivity].
  unfold observe. destruct (virt_params a (world s)); reflexivity.
Qed.

Lemma scan_step_from_end s i prev y :
  ¬ (i < size_Z (params_ (self s)))%Z -> ~ scan_step s (i, prev) y.
Proof. intros Hi Hstep. inversion Hstep; subst; contradiction. Qed.

Lemma orphaned_loop_sound s fuel :
  forall i prev acc R s',
    orphaned_loop fuel i prev acc s = Return (Some R) s' ->
    s' = s /\
    exists new,
      R = acc ⊎ new /\
      (forall x, multiplicity x new ≤ 1) /\
      (forall k p, (k, p) ∈ new -> (i ≤ p)%Z) /\
      (forall k p, (k, p) ∈ new <->
         rtc (scan_step s) (i, prev) (p, k) /\
         (p < size_Z (params_ (self s)))%Z /\
         childParamIdx_ (self s) !! p = None).
Proof.
  induction fuel as [|fuel IH]; intros i prev acc R s' E.
  { discriminate E. }
  rewrite orphaned_loop_unfold in E.
  destruct (decide (i < size_Z (params_ (self s)))%Z) as [Hi|Hi].
  - destruct (childParamIdx_ (self s) !! i) as [[midx pidx]|] eqn:Hidx.
    + destruct (nth_Z (modules_ (self s)) midx) as [m|] eqn:Hm; [|discriminate E].
      destruct (ModuleWrapper_arrow m) as [a|] eqn:Ha; [|discriminate E].
      destruct (virt_params a (world s)) as [ps []| |] eqn:Hps; try discriminate E.
      destruct (IH _ _ _ _ _ E) as (Hs & new & HR & Hmult & Hge & Hin); subst s' R.
      split; [reflexivity|]. exists new.
      split; [reflexivity|]. split; [exact Hmult|]. split.
      * intros k p Hkp. specialize (Hge k p Hkp). unfold size_Z in Hge. lia.
      * intros k p. rewrite Hin. split.
        -- intros (Hr & Hp & Hnone). repeat split; auto.
           eapply rtc_l; [|exact Hr]. econstructor; eauto.
        -- intros (Hr & Hp & Hnone). repeat split; auto.
           apply rtc_inv in Hr as [Heq|(y & Hstep & Hr)].
           { injection Heq as <- <-. congruence. }
           inversion Hstep; subst; [|congruence].
           match goal with
           | H1 : childParamIdx_ _ !! i = Some _ |- _ => rewrite Hidx in H1; injection H1 as <- <-
           end.
           match goal with
           | H1 : nth_Z _ midx = Some _ |- _ => rewrite Hm in H1; injection H1 as <-
           end.
           match goal with
           | H1 : ModuleWrapper_arrow m = Some _ |- _ => rewrite Ha in H1; injection H1 as <-
           end.
           match goal with
           | H1 : virt_params a (world s) = Return _ _ |- _ =>
               rewrite Hps in H1; injection H1 as <-
           end.
           exact Hr.
    + destruct (IH _ _ _ _ _ E) as (Hs & new & HR & Hmult & Hge & Hin); subst s' R.
      split; [reflexivity|]. exists ({[+ (prev, i) +]} ⊎ new).
      split; [now rewrite <- (assoc_L (⊎))|]. split; [|split].
      * intros [k p]. rewrite multiplicity_disj_union, multiplicity_singleton.
        destruct (decide ((k, p) = (prev, i))) as [[= -> ->]|Hne].
        -- assert (multiplicity (prev, i) new = 0) as ->; [|reflexivity].
           apply not_elem_of_multiplicity. intros Hkp. apply Hge in Hkp. lia.
        -- specialize (Hmult (k, p)). lia.
      * intros k p Hkp. apply gmultiset_elem_of_disj_union in Hkp as [Hkp|Hkp].
        -- apply gmultiset_elem_of_singleton in Hkp. injection Hkp as -> ->. lia.
        -- apply Hge in Hkp. lia.
      * intros k p. rewrite gmultiset_elem_of_disj_union, gmultiset_elem_of_singleton, Hin.
        split.
        -- intros [[= -> ->]|(Hr & Hp & Hnone)].
           ++ repeat split; auto. apply rtc_refl.
           ++ repeat split; auto. eapply rtc_l; [|exact Hr]. now constructor.
        -- intros (Hr & Hp & Hnone).
           apply rtc_inv in Hr as [Heq|(y & Hstep & Hr)].
           { injection Heq as <- <-. now left. }
           right. inversion Hstep; subst; [congruence|]. auto.
  - injection E as <- <-. split; [reflexivity|]. exists ∅.
    split; [now rewrite (right_id_L ∅ (⊎))|]. split; [|split].
    + intros x. rewrite multiplicity_empty. lia.
    + intros k p Hkp. now apply gmultiset_elem_of_empty in Hkp.
    + intros k p. split; [intros Hkp; now apply gmultiset_elem_of_empty in Hkp|].
      intros (Hr & Hp & _). exfalso.
      apply rtc_inv in Hr as [Heq|(y & Hstep & _)].
      * injection Heq as <- <-. contradiction.
      * exact (scan_step_from_end _ _ _ _ Hi Hstep).
Qed.

Lemma orphaned_loop_more_fuel s fuel :
  forall fuel' i prev acc R s',
    fuel ≤ fuel' ->
    orphaned_loop fuel i prev acc s = Return (Some R) s' ->
    orphaned_loop fuel' i prev acc s = Return (Some R) s'.
Proof.
  induction fuel as [|fuel IH]; intros fuel' i prev acc R s' Hle E.
  { discriminate E. }
  destruct fuel' as [|fuel']; [lia|].
  rewrite orphaned_loop_unfold in *.
  destruct (decide _); [|exact E].
  destruct (childParamIdx_ (self s) !! i) as [[midx pidx]|].
  - destruct (nth_Z _ midx); [|exact E].
    destruct (ModuleWrapper_arrow _) as [a|]; [|exact E].
    destruct (virt_params a (world s)); try exact E.
    apply IH; [lia|exact E].
  - apply IH; [lia|exact E].
Qed.

Lemma orphaned_loop_returns s fuel :
  scan_ready s ->
  forall i prev acc,
    (0 ≤ i)%Z ->
    Z.to_nat (size_Z (params_ (self s)) - i) < fuel ->
    exists R, orphaned_loop fuel i prev acc s = Return (Some R) s.
Proof.
  intros Hready. induction fuel as [|fuel IH]; intros i prev acc Hi Hfuel; [lia|].
  rewrite orphaned_loop_unfold.
  destruct (decide (i < size_Z (params_ (self s)))%Z) as [Hlt|Hge]; [|eauto].
  destruct (childParamIdx_ (self s) !! i) as [[midx pidx]|] eqn:Hidx.
  - destruct (Hready i midx pidx (conj Hi Hlt) Hidx) as (m & a & ps & Hm & Ha & Hps & Hpos).
    rewrite Hm, Ha, Hps. apply IH; lia.
  - apply IH; lia.
Qed.

(** C6.  Whenever the scan returns, it has left the state alone, and what it
    returns holds, once each, exactly the pairs [(k, p)] of a position [p]
    without an index-map entry that the scan reaches and the child index [k]
    seen last on the way there; the scan starts at position 0 with the key
    -1, moves on by the number of parameters of the mapped child at a
    position with an entry, and by one at a position without.  When every
    entry names a child that is there and has a parameter, the scan returns,
    with fuel beyond the size of the flat list; and when moreover every
    position has an entry, what it returns is empty. *)
Theorem Container_getOrphanedParamsIdxMap_spec s :
  (forall fuel R s',
     Container_getOrphanedParamsIdxMap fuel s = Return (Some R) s' ->
     s' = s /\
     (forall k p, (k, p) ∈ R <-> orphan_at s k p) /\
     (forall x, multiplicity x R ≤ 1)) /\
  (scan_ready s ->
   exists R, forall fuel,
     length (params_ (self s)) < fuel ->
     Container_getOrphanedParamsIdxMap fuel s = Return (Some R) s) /\
  (scan_ready s ->
   (forall i, (0 ≤ i < size_Z (params_ (self s)))%Z -> childParamIdx_ (self s) !! i <> None) ->
   forall fuel,
     length (params_ (self s)) < fuel ->
     Container_getOrphanedParamsIdxMap fuel s = Return (Some ∅) s).
Proof.
  assert (forall fuel R s',
     Container_getOrphanedParamsIdxMap fuel s = Return (Some R) s' ->
     s' = s /\
     (forall k p, (k, p) ∈ R <-> orphan_at s k p) /\
     (forall x, multiplicity x R ≤ 1) /\
     (forall k p, (k, p) ∈ R -> (0 ≤ p)%Z)) as Hsound.
  { intros fuel R s' E.
    destruct (orphaned_loop_sound s fuel _ _ _ _ _ E) as (Hs & new & HR & Hmult & Hge & Hin).
    rewrite (left_id_L ∅ (⊎)) in HR. subst R.
    split; [exact Hs|]. split; [exact Hin|]. split; [exact Hmult|exact Hge]. }
  assert (scan_ready s ->
          forall fuel, length (params_ (self s)) < fuel ->
          exists R, Container_getOrphanedParamsIdxMap fuel s = Return (Some R) s) as Hret.
  { intros Hready fuel Hfuel. apply orphaned_loop_returns; auto; [lia|].
    unfold size_Z. lia. }
  split; [|split].
  - intros fuel R s' E. destruct (Hsound fuel R s' E) as (? & ? & ? & _). auto.
  - intros Hready.
    destruct (Hret Hready (S (length (params_ (self s)))) ltac:(lia)) as [R E].
    exists R. intros fuel Hfuel.
    apply (orphaned_loop_more_fuel s (S (length (params_ (self s))))); [lia|exact E].
  - intros Hready Hcovered fuel Hfuel.
    destruct (Hret Hready fuel Hfuel) as [R E]. rewrite E.
    destruct (Hsound fuel R s E) as (_ & Hin & _ & Hge).
    assert (R = ∅) as ->; [|reflexivity].
    apply gmultiset_eq. intros [k p]. rewrite multiplicity_empty.
    apply not_elem_of_multiplicity. intros Hkp.
    pose proof (Hge k p Hkp) as Hp. apply Hin in Hkp as (_ & Hlt & Hnone).
    exact (Hcovered p (conj Hp Hlt) Hnone).
Qed.

(** Entered at a position mapped to a child that reports no parameters,
    the loop does not move on. *)
Lemma orphaned_loop_stalls_from s i midx pidx m a :
  (i < size_Z (params_ (self s)))%Z ->
  childParamIdx_ (self s) !! i = Some (midx, pidx) ->
  nth_Z (modules_ (self s)) midx = Some m ->
  ModuleWrapper_arrow m = Some a ->
  virt_params a (world s) = Return [] tt ->
  forall fuel prev acc, orphaned_loop fuel i prev acc s = Return None s.
Proof.
  intros Hi Hidx Hm Ha Hps fuel.
  induction fuel as [|fuel IH]; intros prev acc; [reflexivity|].
  rewrite orphaned_loop_unfold.
  destruct (decide _); [|contradiction].
  rewrite Hidx, Hm, Ha, Hps. unfold size_Z. simpl.
  replace (i + Z.of_nat 0)%Z with i by lia. apply IH.
Qed.

(** The loop follows the steps of the scan: if it never ends from where a
    step leads, it never ends from where the step starts. *)
Lemma orphaned_loop_step s (x y : Z * Z) :
  scan_step s x y ->
  (forall fuel acc, orphaned_loop fuel y.1 y.2 acc s = Return None s) ->
  forall fuel acc, orphaned_loop fuel x.1 x.2 acc s = Return None s.
Proof.
  intros Hstep Hy [|fuel] acc; [reflexivity|].
  rewrite orphaned_loop_unfold.
  destruct Hstep as [i prev midx pidx m a ps Hi Hidx Hm Ha Hps|i prev Hi Hidx]; simpl in *.
  - destruct (decide _); [|contradiction]. rewrite Hidx, Hm, Ha, Hps. apply Hy.
  - destruct (decide _); [|contradiction]. rewrite Hidx. apply Hy.
Qed.

Lemma orphaned_loop_reach s (x y : Z * Z) :
  rtc (scan_step s) x y ->
  (forall fuel acc, orphaned_loop fuel y.1 y.2 acc s = Return None s) ->
  forall fuel acc, orphaned_loop fuel x.1 x.2 acc s = Return None s.
Proof.
  induction 1 as [x|x y z Hstep _ IH]; intros Hz; [exact Hz|].
  eapply orphaned_loop_step; eauto.
Qed.

(** When the scan of [getOrphanedParamsIdxMap], started at position 0 with
    the key -1, reaches a position mapped to a child that reports no
    parameters, it stalls there: the position does not move, and with no
    amount of fuel does the function produce a result. *)
Theorem orphaned_loop_stalls s i prev midx pidx m a :
  rtc (scan_step s) (0, -1)%Z (i, prev) ->
  (i < size_Z (params_ (self s)))%Z ->
  childParamIdx_ (self s) !! i = Some (midx, pidx) ->
  nth_Z (modules_ (self s)) midx = Some m ->
  ModuleWrapper_arrow m = Some a ->
  virt_params a (world s) = Return [] tt ->
  forall fuel, Container_getOrphanedParamsIdxMap fuel s = Return None s.
Proof.
  intros Hreach Hi Hidx Hm Ha Hps fuel.
  apply (orphaned_loop_reach s (0, -1)%Z (i, prev) Hreach).
  intros fuel' acc. simpl. eapply orphaned_loop_stalls_from; eauto.
Qed.

(** An entry that names a child index outside the children makes the scan
    throw out_of_range, from the checked access, as soon as it reaches the
    entry. *)
Theorem orphaned_loop_out_of_range s i midx pidx :
  (i < size_Z (params_ (self s)))%Z ->
  childParamIdx_ (self s) !! i = Some (midx, pidx) ->
  nth_Z (modules_ (self s)) midx = None ->
  forall fuel prev acc, orphaned_loop (S fuel) i prev acc s = Throw out_of_range s.
Proof.
  intros Hi Hidx Hm fuel prev acc.
  rewrite orphaned_loop_unfold.
  destruct (decide _); [|contradiction].
  now rewrite Hidx, Hm.
Qed.

End OrphanFacts.

(** On [stalled] the scan reports nothing: it passes position 0, which has
    no entry, and stalls at position 1. *)
Lemma orphaned_loop_stalls_witness :
  Container_getOrphanedParamsIdxMap 1000 stalled = Return None stalled.
Proof.
  apply (orphaned_loop_stalls stalled 1 (-1) 0 0 (Unique (Some 1%positive)) 1%positive).
  - eapply rtc_l; [|apply rtc_refl].
    apply (scan_orphan stalled 0 (-1)); reflexivity.
  - reflexivity.
  - reflexivity.
  - reflexivity.
  - reflexivity.
  - reflexivity.
Defined.

Lemma orphaned_loop_out_of_range_witness :
  Container_getOrphanedParamsIdxMap 3
    (mkState (mkContainer [] [10] (<[0%Z := (4%Z, 0%Z)]> ∅) true) two_layers) =
  Throw out_of_range
    (mkState (mkContainer [] [10] (<[0%Z := (4%Z, 0%Z)]> ∅) true) two_layers).
Proof.
  apply (orphaned_loop_out_of_range
           (mkState (mkContainer [] [10] (<[0%Z := (4%Z, 0%Z)]> ∅) true) two_layers)
           0 4 0); reflexivity.
Defined.

(** The scan on the sample container: parameter 13, added to the container
    after its two children, is reported at its position 3 under the index 1
    of the child added last.  On the container whose five parameters all
    come from its two children the scan reports nothing. *)
Lemma Container_getOrphanedParamsIdxMap_spec_witness :
  Container_getOrphanedParamsIdxMap 5 sample = Return (Some {[+ (1, 3)%Z +]}) sample /\
  orphan_at sample 1 3 /\
  Container_getOrphanedParamsIdxMap 6 registered = Return (Some ∅) registered.
Proof.
  assert (Container_getOrphanedParamsIdxMap 5 sample =
          Return (Some {[+ (1, 3)%Z +]}) sample) as E.
  { vm_compute. reflexivity. }
  split; [exact E|]. split.
  - apply (proj1 (proj2 (proj1 (Container_getOrphanedParamsIdxMap_spec sample) _ _ _ E)) 1 3)%Z.
    now apply gmultiset_elem_of_singleton.
  - apply (proj2 (proj2 (Container_getOrphanedParamsIdxMap_spec registered))).
    + intros i midx pidx Hi Hidx.
      assert (i = 0 \/ i = 1 \/ i = 2 \/ i = 3 \/ i = 4)%Z as Hcases.
      { change (size_Z (params_ (self registered))) with 5%Z in Hi. lia. }
      destruct Hcases as [ -> | [ -> | [ -> | [ -> | -> ] ] ] ];
        vm_compute in Hidx; injection Hidx as <- <-;
        [ exists (Unique (Some 1%positive)), 1%positive, [10; 11]
        | exists (Unique (Some 1%positive)), 1%positive, [10; 11]
        | exists (Shared (Some 3%positive)), 3%positive, [12; 13; 14]
        | exists (Shared (Some 3%positive)), 3%positive, [12; 13; 14]
        | exists (Shared (Some 3%positive)), 3%positive, [12; 13; 14] ];
        repeat split.
    + intros i Hi.
      assert (i = 0 \/ i = 1 \/ i = 2 \/ i = 3 \/ i = 4)%Z as Hcases.
      { change (size_Z (params_ (self registered))) with 5%Z in Hi. lia. }
      destruct Hcases as [ -> | [ -> | [ -> | [ -> | -> ] ] ] ]; vm_compute; discriminate.
    + simpl. lia.
Defined.

(** ** Sequential: forward *)

Section ForwardFacts.
Context {Obj : Type} `{!Module Obj}.
Implicit Types (s : @State Obj) (w : World Obj).

Lemma pipeline_run_fold_each c ms input w output w' :
  pipeline_run ms input w output w' ->
  fold_each ms (fun output module =>
    call (ModuleWrapper_arrow module) (fun a => virt_forward a output)) input (mkState c w)
  = Return output (mkState c w').
Proof.
  induction 1 as [input w|m ms a input w mid w1 output w2 Ha Hf _ IH]; simpl.
  - reflexivity.
  - unfold bind, call. rewrite Ha. unfold lift_world. simpl. rewrite Hf. exact IH.
Qed.

Lemma Sequential_forward1_forward s input :
  Sequential_forward1 input s =
  match Sequential_forward [input] s with
  | Return output s' =>
      match output with
      | [x] => Return x s'
      | _ => Throw invalid_argument s'
      end
  | Throw e s' => Throw e s'
  | Undefined u => Undefined u
  end.
Proof.
  unfold Sequential_forward1, Sequential_forward, bind, gets.
  destruct (fold_each _ _ _ s) as [output s'| |]; try reflexivity.
  destruct output as [|x [|y output]]; simpl; reflexivity.
Qed.

(** C7.  The single-variable [forward] is the sequence [forward] on the
    one-element sequence of its input, followed by the check of the size of
    the output: whatever the pipeline throws or does wrong, it does too; when
    the pipeline returns exactly one variable it returns that variable, and
    when the pipeline returns none or more than one it throws
    invalid_argument.  The pipeline applies the children in the order of
    [modules_], each to the output of the one before.  The call operator is
    the single-variable [forward]. *)
Theorem Sequential_forward1_spec s input :
  Sequential_forward1 input s =
    match Sequential_forward [input] s with
    | Return output s' =>
        match output with
        | [x] => Return x s'
        | _ => Throw invalid_argument s'
        end
    | Throw e s' => Throw e s'
    | Undefined u => Undefined u
    end /\
  (forall output w',
     pipeline_run (modules_ (self s)) [input] (world s) output w' ->
     Sequential_forward [input] s = Return output (mkState (self s) w') /\
     (forall x, output = [x] -> Sequential_forward1 input s = Return x (mkState (self s) w')) /\
     (length output <> 1 ->
      Sequential_forward1 input s = Throw invalid_argument (mkState (self s) w'))) /\
  Sequential_call input s = Sequential_forward1 input s.
Proof.
  split; [apply Sequential_forward1_forward|]. split; [|reflexivity].
  intros output w' Hrun.
  assert (Sequential_forward [input] s = Return output (mkState (self s) w')) as E.
  { unfold Sequential_forward, bind, gets. destruct s as [c w].
    exact (pipeline_run_fold_each c _ _ _ _ _ Hrun). }
  split; [exact E|]. rewrite Sequential_forward1_forward, E. split.
  - intros x ->. reflexivity.
  - intros Hlen. destruct output as [|x [|y output]]; simpl in *; congruence.
Qed.

(** C9.  A Sequential without children returns its input as it is, and
    leaves the state alone: the sequence it was given, or the single
    variable it was given. *)
Theorem Sequential_forward_no_children s :
  modules_ (self s) = [] ->
  (forall input, Sequential_forward input s = Return input s) /\
  (forall input, Sequential_forward1 input s = Return input s).
Proof.
  intros Hnil. split; intros input.
  - unfold Sequential_forward, bind, gets. rewrite Hnil. reflexivity.
  - unfold Sequential_forward1, bind, gets. rewrite Hnil. reflexivity.
Qed.

End ForwardFacts.

(** The pipeline of [wide] on the variable 5 ends in the two variables 6 and
    6, so the single-variable [forward] throws; the pipeline of [narrow] ends
    in the one variable 6, which it returns. *)
Lemma Sequential_forward1_spec_witness :
  Sequential_forward1 5 wide = Throw invalid_argument wide /\
  Sequential_forward1 5 narrow = Return 6 narrow.
Proof.
  split.
  - apply (proj1 (proj2 (Sequential_forward1_spec wide 5)) [6; 6] three_layers).
    + eapply pipeline_cons; [reflexivity|vm_compute; reflexivity|].
      eapply pipeline_cons; [reflexivity|vm_compute; reflexivity|].
      eapply pipeline_cons; [reflexivity|vm_compute; reflexivity|].
      apply pipeline_nil.
    + simpl. lia.
  - apply (proj1 (proj2 (Sequential_forward1_spec narrow 5)) [6] three_layers).
    + eapply pipeline_cons; [reflexivity|vm_compute; reflexivity|].
      eapply pipeline_cons; [reflexivity|vm_compute; reflexivity|].
      apply pipeline_nil.
    + reflexivity.
Defined.

Lemma Sequential_forward_no_children_witness :
  Sequential_forward [7; 8] no_children = Return [7; 8] no_children /\
  Sequential_forward1 7 no_children = Return 7 no_children.
Proof.
  destruct (Sequential_forward_no_children no_children eq_refl) as [Hseq Hone].
  split; [apply Hseq|apply Hone].
Defined.

(** ** prettyString *)

Lemma append_assoc (s1 s2 s3 : string) : (s1 +:+ s2) +:+ s3 = s1 +:+ (s2 +:+ s3).
Proof.
  induction s1 as [|c s1 IH]; [reflexivity|].
  change (String c ((s1 +:+ s2) +:+ s3) = String c (s1 +:+ (s2 +:+ s3))).
  f_equal. exact IH.
Qed.

Lemma append_empty_r (s1 : string) : s1 +:+ "" = s1.
Proof.
  induction s1 as [|c s1 IH]; [reflexivity|].
  change (String c (s1 +:+ "") = String c s1).
  f_equal. exact IH.
Qed.

(** A loop that appends one piece per element to the stream can be run on a
    stream with something more in front. *)
Lemma fold_each_prefix {S X} (body : string -> X -> M S string)
      (piece : X -> S -> Outcome S string) :
  (forall ss x s, body ss x s =
     match piece x s with
     | Return t s' => Return (ss +:+ t) s'
     | Throw e s' => Throw e s'
     | Undefined u => Undefined u
     end) ->
  forall l pre ss s,
    fold_each l body (pre +:+ ss) s =
    match fold_each l body ss s with
    | Return r s' => Return (pre +:+ r) s'
    | Throw e s' => Throw e s'
    | Undefined u => Undefined u
    end.
Proof.
  intros Hbody. induction l as [|x l IH]; intros pre ss s; simpl.
  - reflexivity.
  - unfold bind. rewrite !Hbody. destruct (piece x s) as [t s'| |]; try reflexivity.
    rewrite append_assoc. apply IH.
Qed.

(** A loop whose every iteration appends a known piece and leaves the state
    alone appends the concatenation of the pieces. *)
Lemma fold_each_pieces {S X} (body : string -> X -> M S string) (f : X -> string) (s : S) :
  forall l ss,
    (forall x ss', x ∈ l -> body ss' x s = Return (ss' +:+ f x) s) ->
    fold_each l body ss s = Return (ss +:+ concat_strings (map f l)) s.
Proof.
  induction l as [|x l IH]; intros ss Hbody; simpl.
  - unfold ret. now rewrite append_empty_r.
  - unfold bind. rewrite Hbody by apply list_elem_of_here.
    rewrite IH.
    + now rewrite append_assoc.
    + intros y ss' Hy. apply Hbody. now apply list_elem_of_further.
Qed.

Section PrettyFacts.
Context {Obj : Type} `{!Module Obj}.
Implicit Types s : @State Obj.

Lemma diagram_loop_prefix pre ss s :
  diagram_loop (pre +:+ ss) s =
  match diagram_loop ss s with
  | Return r s' => Return (pre +:+ r) s'
  | Throw e s' => Throw e s'
  | Undefined u => Undefined u
  end.
Proof.
  unfold diagram_loop, bind, gets.
  apply (fold_each_prefix _ (fun i s => Return (" -> (" +:+ pretty i +:+ ")") s)).
  reflexivity.
Qed.

Lemma children_loop_prefix pre ss s :
  children_loop (pre +:+ ss) s =
  match children_loop ss s with
  | Return r s' => Return (pre +:+ r) s'
  | Throw e s' => Throw e s'
  | Undefined u => Undefined u
  end.
Proof.
  unfold children_loop. unfold bind at 1 4. unfold gets at 1 2.
  apply (fold_each_prefix _ (fun i =>
    let* m := modules_index i in
    let* child := call_const (ModuleWrapper_arrow m) virt_prettyString in
    ret (newline_tab +:+ "(" +:+ pretty i +:+ "): " +:+ child))).
  intros ss0 i s0. unfold bind.
  destruct (modules_index i s0) as [m s1| |]; try reflexivity.
  destruct (call_const _ _ s1) as [child s2| |]; reflexivity.
Qed.

Lemma diagram_loop_run ss s :
  diagram_loop ss s =
  Return (ss +:+ concat_strings (map (fun i => " -> (" +:+ pretty i +:+ ")")
                                     (seqZ 0 (size_Z (modules_ (self s)))))) s.
Proof.
  unfold diagram_loop, bind at 1, gets.
  apply fold_each_pieces. reflexivity.
Qed.

Lemma children_loop_run ss s :
  children_printable s ->
  children_loop ss s = Return (ss +:+ child_lines s) s.
Proof.
  intros Hall. unfold children_loop, bind at 1, gets.
  apply (fold_each_pieces _ (fun i =>
    newline_tab +:+ "(" +:+ pretty i +:+ "): " +:+ child_prettyString s i)).
  intros i ss' Hi. apply elem_of_seqZ in Hi.
  destruct (nth_Z_in_range (modules_ (self s)) i ltac:(lia)) as [m Hm].
  unfold child_prettyString, modules_index, bind, gets. rewrite Hm. unfold ret.
  assert (exists a name, ModuleWrapper_arrow m = Some a /\
                         virt_prettyString a (world s) = Return name tt) as (a & name & Ha & Hname).
  { unfold nth_Z in Hm. destruct (decide _); [|discriminate].
    unfold children_printable in Hall. rewrite Forall_forall in Hall.
    apply Hall. eapply list_elem_of_lookup_2, Hm. }
  rewrite Ha. unfold call_const, observe. rewrite Hname. reflexivity.
Qed.

(** C8.  [Sequential::prettyString] is [Container::prettyString] with the
    label "Sequential" in front, whatever the latter does.  When every child
    wrapper holds a module whose own [prettyString] returns,
    [Container::prettyString] returns, with the state as it was, the
    diagram " [input -> (0) -> ... -> (n-1) -> output]" followed, for each
    child [i] in order, by a new line, a tab, "(i): " and that child's own
    [prettyString]. *)
Theorem prettyString_spec s :
  Sequential_prettyString s =
    match Container_prettyString s with
    | Return str s' => Return ("Sequential" +:+ str) s'
    | Throw e s' => Throw e s'
    | Undefined u => Undefined u
    end /\
  (children_printable s ->
   Container_prettyString s =
     Return (diagram (size_Z (modules_ (self s))) +:+ child_lines s) s /\
   Sequential_prettyString s =
     Return ("Sequential" +:+ diagram (size_Z (modules_ (self s))) +:+ child_lines s) s).
Proof.
  assert (Sequential_prettyString s =
    match Container_prettyString s with
    | Return str s' => Return ("Sequential" +:+ str) s'
    | Throw e s' => Throw e s'
    | Undefined u => Undefined u
    end) as Hprefix.
  { unfold Sequential_prettyString, Container_prettyString, bind, ret.
    rewrite (diagram_loop_prefix "Sequential" " [input" s).
    destruct (diagram_loop " [input" s) as [r s1| |]; try reflexivity.
    rewrite append_assoc. apply children_loop_prefix. }
  split; [exact Hprefix|].
  intros Hall.
  assert (Container_prettyString s =
          Return (diagram (size_Z (modules_ (self s))) +:+ child_lines s) s) as Hc.
  { unfold Container_prettyString, bind, ret. rewrite diagram_loop_run.
    rewrite (children_loop_run _ s Hall). unfold diagram.
    now rewrite !append_assoc. }
  split; [exact Hc|]. rewrite Hprefix, Hc. reflexivity.
Qed.

End PrettyFacts.

(** The summary of the sample container, as a Sequential. *)
Lemma prettyString_spec_witness :
  Sequential_prettyString sample =
  Return ("Sequential [input -> (0) -> (1) -> output]" +:+
          newline_tab +:+ "(0): Linear" +:+
          newline_tab +:+ "(1): ReLU") sample.
Proof.
  destruct (proj2 (prettyString_spec sample)) as [_ E].
  - repeat constructor.
    + exists 1%positive, "Linear". split; reflexivity.
    + exists 3%positive, "ReLU". split; reflexivity.
  - rewrite E. vm_compute. reflexivity.
Defined.

(** The summary of the tree of depth two holds the summary of the inner
    Sequential as the line of child 0. *)
Example prettyString_nested :
  Sequential_prettyString nested =
  Return ("Sequential [input -> (0) -> output]" +:+
          newline_tab +:+ "(0): Sequential [input -> (0) -> (1) -> output]" +:+
          newline_tab +:+ "(0): Linear" +:+
          newline_tab +:+ "(1): ReLU") nested.
Proof. vm_compute. reflexivity. Qed.

(** * Further properties *)

(** ** reset *)

Section LifetimeFacts.
Context {Obj : Type} `{!Module Obj}.
Context (delete_module release_shared : addr -> World Obj -> World Obj).
Context (destroy_wrappers : list ModuleWrapper -> World Obj -> World Obj).
Implicit Types (s : @State Obj) (w : World Obj).

(** [reset()] always returns.  It leaves the wrapper under the tag it had,
    on the null pointer: the wrapper then tests false and [get()] is null.
    The world changes only when the wrapper held a module: a unique one is
    deleted, a shared one released.  A second [reset()] changes neither the
    wrapper nor the world, so nothing is deleted or released twice. *)
Theorem ModuleWrapper_reset_spec (this : ModuleWrapper) w :
  exists this' w',
    ModuleWrapper_reset delete_module release_shared this w = Return this' w' /\
    ModuleWrapper_get this' = None /\
    ModuleWrapper_bool this' = false /\
    holds_unique this' = holds_unique this /\
    holds_shared this' = holds_shared this /\
    w' = match this with
         | Unique (Some a) => delete_module a w
         | Shared (Some a) => release_shared a w
         | _ => w
         end /\
    ModuleWrapper_reset delete_module release_shared this' w' = Return this' w'.
Proof.
  destruct this as [|[a|]|[a|]]; eexists; eexists; repeat split; reflexivity.
Qed.

(** After [reset()] a wrapper that was unique can no longer be copied: the
    copy constructor calls [clone()] through the null pointer that [reset()]
    left.  A wrapper that was shared or empty is copied to itself.  In both
    cases [make_shared] returns the null pointer and leaves a wrapper that
    is not unique. *)
Theorem ModuleWrapper_reset_then_copy (this this' : ModuleWrapper) w w' :
  ModuleWrapper_reset delete_module release_shared this w = Return this' w' ->
  (holds_unique this = true ->
   ModuleWrapper_copy this' w' = Undefined null_dereference) /\
  (holds_unique this = false ->
   ModuleWrapper_copy this' w' = Return this' w') /\
  exists shared,
    ModuleWrapper_make_shared this' = Return None shared /\
    holds_unique shared = false /\
    ModuleWrapper_get shared = None.
Proof.
  intros E.
  destruct this as [|[a|]|[a|]]; simpl in E; injection E as <- <-;
    (split; [|split]); try discriminate; try reflexivity;
    eexists; repeat split; reflexivity.
Qed.

(** ** clear *)

(** [clear()] always returns.  It leaves a container without children,
    parameters or index-map entries, in the mode it was in, and a world in
    which the children's wrappers were destroyed.  On the container it
    leaves: the scan for orphaned parameters reports nothing, the summary is
    the diagram without a child, [forward] returns its input, [module] has no
    valid index, [setParams] throws at every position, and [train()] and
    [eval()] change the mode flag and nothing else. *)
Theorem Container_clear_spec s :
  exists s',
    Container_clear destroy_wrappers s = Return tt s' /\
    self s' = mkContainer [] [] ∅ (train_ (self s)) /\
    world s' = destroy_wrappers (modules_ (self s)) (world s) /\
    (forall fuel, Container_getOrphanedParamsIdxMap (S fuel) s' = Return (Some ∅) s') /\
    Container_prettyString s' = Return " [input -> output]" s' /\
    Sequential_prettyString s' = Return "Sequential [input -> output]" s' /\
    (forall input, Sequential_forward input s' = Return input s') /\
    (forall id, Container_module id s' = Undefined index_out_of_bounds) /\
    (forall var position, Container_setParams var position s' = Throw out_of_range s') /\
    Container_train s' = Return tt (set_self (set_train_ true) s') /\
    Container_eval s' = Return tt (set_self (set_train_ false) s').
Proof.
  destruct s as [c w].
  exists (mkState (mkContainer [] [] ∅ (train_ c)) (destroy_wrappers (modules_ c) w)).
  split; [reflexivity|]. split; [reflexivity|]. split; [reflexivity|].
  split; [intros fuel; reflexivity|].
  split; [reflexivity|]. split; [reflexivity|].
  split; [intros input; reflexivity|].
  split.
  { intros id. unfold Container_module, modules_index, bind, gets. simpl.
    unfold nth_Z. destruct (decide _); reflexivity. }
  split.
  { intros var position. unfold Container_setParams. apply bind_Throw.
    unfold Module_setParams, bind, gets. simpl.
    unfold nth_Z. destruct (decide _); reflexivity. }
  split; reflexivity.
Qed.

End LifetimeFacts.

(** ** modules *)

Section ModulesFacts.
Context {Obj : Type} `{!Module Obj}.
Context (destroy_wrappers : list ModuleWrapper -> World Obj -> World Obj).
Implicit Types (s : @State Obj) (w : World Obj).

Lemma ModuleWrapper_copy_Return (m m' : ModuleWrapper) w w' :
  ModuleWrapper_copy m w = Return m' w' -> copy_of m m'.
Proof.
  destruct m as [|[a|]|p]; simpl.
  - now intros [= <- _].
  - unfold bind. destruct (virt_clone a w); [|discriminate..].
    now intros [= <- _].
  - discriminate.
  - now intros [= <- _].
Qed.

Lemma copy_wrappers_Return (ms : list ModuleWrapper) :
  forall copies w r w',
    copy_wrappers destroy_wrappers ms copies w = Return r w' ->
    exists new, r = copies ++ new /\ Forall2 copy_of ms new.
Proof.
  induction ms as [|m ms IH]; intros copies w r w' E; simpl in E.
  - injection E as <- _. exists []. split; [now rewrite app_nil_r|constructor].
  - destruct (ModuleWrapper_copy m w) as [m' w1| |] eqn:Hm; try discriminate E.
    destruct (IH _ _ _ _ E) as (new & -> & Hall).
    exists (m' :: new). split; [now rewrite <- app_assoc|].
    constructor; [|exact Hall]. eapply ModuleWrapper_copy_Return, Hm.
Qed.

Lemma copy_wrappers_not_unique (ms : list ModuleWrapper) :
  Forall (fun m => holds_unique m = false) ms ->
  forall copies w, copy_wrappers destroy_wrappers ms copies w = Return (copies ++ ms) w.
Proof.
  induction 1 as [|m ms Hm _ IH]; intros copies w; simpl.
  - unfold ret. now rewrite app_nil_r.
  - destruct m as [|p|p]; try discriminate Hm; simpl;
      rewrite IH, <- app_assoc; reflexivity.
Qed.

(** Whenever [modules()] returns, the container is as it was and the
    sequence returned has one wrapper per child, in order: an empty wrapper
    for an empty one, the same shared wrapper for a shared one, a unique
    wrapper for a unique one.  A unique wrapper on no module has no copy:
    with such a child, [modules()] does not return. *)
Theorem Container_modules_spec s copies s' :
  Container_modules destroy_wrappers s = Return copies s' ->
  self s' = self s /\
  length copies = length (modules_ (self s)) /\
  Forall2 copy_of (modules_ (self s)) copies /\
  Unique None ∉ modules_ (self s).
Proof.
  unfold Container_modules, bind, gets, lift_world. simpl.
  destruct (copy_wrappers _ _ _ _) as [r w'| |] eqn:E; try discriminate.
  intros [= <- <-]. destruct (copy_wrappers_Return _ _ _ _ _ E) as (new & -> & Hall).
  simpl. split; [reflexivity|]. split; [symmetry; eapply Forall2_length, Hall|].
  split; [exact Hall|].
  intros Hin. apply list_elem_of_lookup in Hin as [i Hi].
  destruct (Forall2_lookup_l _ _ _ _ _ Hall Hi) as (m' & _ & Hcopy).
  exact Hcopy.
Qed.

(** On a container without a unique child, [modules()] returns the children
    themselves and changes nothing: no module is cloned. *)
Theorem Container_modules_no_unique s :
  Forall (fun m => holds_unique m = false) (modules_ (self s)) ->
  Container_modules destroy_wrappers s = Return (modules_ (self s)) s.
Proof.
  intros Hall. destruct s as [c w].
  unfold Container_modules, bind, gets, lift_world. simpl in *.
  now rewrite (copy_wrappers_not_unique _ Hall).
Qed.

End ModulesFacts.

Lemma Container_modules_spec_witness :
  exists s',
    Container_modules Object_destroy sample =
      Return [Unique (Some 4%positive); Shared (Some 3%positive)] s' /\
    self s' = self sample /\
    heap (world s') !! 4%positive = heap (world sample) !! 1%positive.
Proof.
  eexists. split; [vm_compute; reflexivity|].
  split.
  - eapply (Container_modules_spec Object_destroy sample). vm_compute. reflexivity.
  - vm_compute. reflexivity.
Defined.

Lemma Container_modules_no_unique_witness :
  Container_modules Object_destroy all_shared = Return (modules_ (self all_shared)) all_shared.
Proof.
  apply Container_modules_no_unique. repeat constructor.
Defined.

Lemma ModuleWrapper_reset_then_copy_witness :
  ModuleWrapper_reset Object_delete Object_release (Unique (Some 1%positive)) two_layers =
    Return (Unique None) (Object_delete 1%positive two_layers) /\
  ModuleWrapper_copy (Unique None) (Object_delete 1%positive two_layers) =
    Undefined null_dereference.
Proof.
  split; [reflexivity|].
  apply (ModuleWrapper_reset_then_copy Object_delete Object_release
           (Unique (Some 1%positive)) (Unique None) two_layers); reflexivity.
Defined.

(** ** Children that hold no module *)

Section NullChildFacts.
Context {Obj : Type} `{!Module Obj}.
Implicit Types (s : @State Obj) (w : World Obj) (c : Container).

Lemma children_run_arrows (f : addr -> M (World Obj) unit) ms w w' :
  children_run f ms w w' -> Forall (fun m => ModuleWrapper_arrow m <> None) ms.
Proof.
  induction 1 as [|m ms a w w1 w2 Ha _ _ IH]; constructor; [congruence|exact IH].
Qed.

Lemma Container_train_children s :
  Container_train s =
  for_each (modules_ (self s)) (fun m => call (ModuleWrapper_arrow m) virt_train)
           (mkState (set_train_ true (self s)) (flag_own_params true (self s) (world s))).
Proof.
  unfold Container_train. unfold bind at 1, modify at 1.
  rewrite (bind_Return _ _ _ _ _ (own_params_loop_run true _)). reflexivity.
Qed.

Lemma Container_eval_children s :
  Container_eval s =
  for_each (modules_ (self s)) (fun m => call (ModuleWrapper_arrow m) virt_eval)
           (mkState (set_train_ false (self s)) (flag_own_params false (self s) (world s))).
Proof.
  unfold Container_eval. unfold bind at 1, modify at 1.
  rewrite (bind_Return _ _ _ _ _ (own_params_loop_run false _)). reflexivity.
Qed.

Lemma pipeline_Return_arrows (ms : list ModuleWrapper) :
  forall input s output s',
    fold_each ms (fun output module =>
      call (ModuleWrapper_arrow module) (fun a => virt_forward a output)) input s
    = Return output s' ->
    Forall (fun m => ModuleWrapper_arrow m <> None) ms.
Proof.
  induction ms as [|m ms IH]; intros input s output s' E; [constructor|].
  simpl in E. unfold bind in E.
  destruct (ModuleWrapper_arrow m) as [a|] eqn:Ha; [|discriminate E].
  constructor; [congruence|].
  simpl in E. destruct (lift_world _ s) as [mid s1| |]; try discriminate E.
  eapply IH, E.
Qed.

Lemma children_loop_Return_arrows s (l : list Z) :
  forall ss r s',
    fold_each l (fun ss i =>
      let* m := modules_index i in
      let* child := call_const (ModuleWrapper_arrow m) virt_prettyString in
      ret (ss +:+ newline_tab +:+ "(" +:+ pretty i +:+ "): " +:+ child)) ss s
    = Return r s' ->
    forall i m, i ∈ l -> nth_Z (modules_ (self s)) i = Some m -> ModuleWrapper_arrow m <> None.
Proof.
  induction l as [|j l IH]; intros ss r s' E i m Hi Hm.
  { inversion Hi. }
  simpl in E. unfold bind at 1 in E.
  destruct ((let* m0 := modules_index j in _) s) as [ss1 s1| |] eqn:Hbody; try discriminate E.
  unfold modules_index, bind, gets in Hbody. cbn beta in Hbody.
  destruct (nth_Z (modules_ (self s)) j) as [mj|] eqn:Hj; [|discriminate Hbody].
  unfold ret in Hbody. destruct (ModuleWrapper_arrow mj) as [a|] eqn:Ha; [|discriminate Hbody].
  simpl in Hbody. unfold observe in Hbody.
  destruct (virt_prettyString a (world s)) as [name []| |]; try discriminate Hbody.
  injection Hbody as <- <-.
  apply elem_of_cons in Hi as [->|Hi].
  - rewrite Hj in Hm. injection Hm as <-. congruence.
  - eapply IH; eauto.
Qed.

Lemma prettyString_Return_arrows pre s r s' :
  (let* ss := diagram_loop pre in
   let* ss := ret (ss +:+ " -> output]") in
   children_loop ss) s = Return r s' ->
  Forall (fun m => ModuleWrapper_arrow m <> None) (modules_ (self s)).
Proof.
  unfold bind at 1. rewrite diagram_loop_run. unfold bind, ret.
  unfold children_loop, bind, gets. intros E.
  apply Forall_forall. intros m Hm.
  apply list_elem_of_lookup in Hm as [i Hi].
  eapply (children_loop_Return_arrows _ _ _ _ _ E (Z.of_nat i)).
  - apply elem_of_seqZ. apply lookup_lt_Some in Hi. unfold size_Z. lia.
  - unfold nth_Z. destruct (decide _); [|lia]. now rewrite Nat2Z.id.
Qed.

(** Nothing checks a child wrapper for a module before calling through it.
    On a container one of whose child wrappers holds no module, [train()],
    [eval()], both [forward]s and both [prettyString]s do not return. *)
Theorem Container_null_child s m :
  m ∈ modules_ (self s) ->
  ModuleWrapper_arrow m = None ->
  (forall s', Container_train s <> Return tt s') /\
  (forall s', Container_eval s <> Return tt s') /\
  (forall input output s', Sequential_forward input s <> Return output s') /\
  (forall input output s', Sequential_forward1 input s <> Return output s') /\
  (forall r s', Container_prettyString s <> Return r s') /\
  (forall r s', Sequential_prettyString s <> Return r s').
Proof.
  intros Hin Hnull.
  assert (~ Forall (fun m => ModuleWrapper_arrow m <> None) (modules_ (self s))) as Hno.
  { intros Hall. rewrite Forall_forall in Hall. exact (Hall m Hin Hnull). }
  split; [|split; [|split; [|split; [|split]]]].
  - intros s' E. rewrite Container_train_children in E.
    apply for_each_children_run in E as [_ Hrun]. eapply Hno, children_run_arrows, Hrun.
  - intros s' E. rewrite Container_eval_children in E.
    apply for_each_children_run in E as [_ Hrun]. eapply Hno, children_run_arrows, Hrun.
  - intros input output s' E. unfold Sequential_forward, bind, gets in E.
    eapply Hno, pipeline_Return_arrows, E.
  - intros input output s' E. unfold Sequential_forward1 in E.
    unfold bind at 1, gets at 1 in E. unfold bind at 1 in E.
    destruct (fold_each _ _ _ s) as [out s1| |] eqn:Hp; try discriminate E.
    eapply Hno, pipeline_Return_arrows, Hp.
  - intros r s' E. unfold Container_prettyString in E.
    unfold bind at 1, ret at 1 in E. eapply Hno, prettyString_Return_arrows, E.
  - intros r s' E. unfold Sequential_prettyString in E.
    unfold bind at 1, ret at 1 in E. unfold bind at 1, ret at 1 in E.
    eapply Hno, prettyString_Return_arrows, E.
Qed.

Lemma for_each_call_Throw_self (f : addr -> M (World Obj) unit) ms :
  forall c w e s1,
    for_each ms (fun m => call (ModuleWrapper_arrow m) f) (mkState c w) = Throw e s1 ->
    self s1 = c.
Proof.
  induction ms as [|m ms IH]; intros c w e s1 E; simpl in E; [discriminate E|].
  unfold bind, call in E. destruct (ModuleWrapper_arrow m) as [a|]; [|discriminate E].
  unfold lift_world in E. simpl in E.
  destruct (f a w) as [[] w1|e1 w1|]; try discriminate E.
  - eapply IH, E.
  - now injection E as _ <-.
Qed.

(** [train()] and [eval()] do not undo what they did when a child throws:
    the exception leaves the container with the mode flag already set as the
    call asked, and with its other fields as they were. *)
Theorem Container_mode_kept_on_throw s e s1 :
  (Container_train s = Throw e s1 -> self s1 = set_train_ true (self s)) /\
  (Container_eval s = Throw e s1 -> self s1 = set_train_ false (self s)).
Proof.
  split; intros E.
  - rewrite Container_train_children in E. eapply for_each_call_Throw_self, E.
  - rewrite Container_eval_children in E. eapply for_each_call_Throw_self, E.
Qed.

End NullChildFacts.

Lemma Container_null_child_witness :
  Container_train with_null_child = Undefined null_dereference /\
  (forall s', Container_train with_null_child <> Return tt s').
Proof.
  split; [vm_compute; reflexivity|].
  apply (Container_null_child with_null_child (Unique None)).
  - apply list_elem_of_further, list_elem_of_here.
  - reflexivity.
Defined.

(** A container in eval mode whose only child throws from [train()]. *)
Lemma Container_mode_kept_on_throw_witness :
  exists s1,
    Container_train (mkState (mkContainer [Shared (Some 1%positive)] [] ∅ false)
                             (mkWorld (<[1%positive := tt]> ∅) ∅))
      = Throw invalid_argument s1 /\
    train_ (self s1) = true.
Proof.
  eexists. split; [vm_compute; reflexivity|].
  match goal with
  | |- train_ (self ?s1) = true =>
      rewrite (proj1 (Container_mode_kept_on_throw
                        (mkState (mkContainer [Shared (Some 1%positive)] [] ∅ false)
                                 (mkWorld (<[1%positive := tt]> ∅) ∅))
                        invalid_argument s1))
  end; [reflexivity|vm_compute; reflexivity].
Defined.

(** ** Composition and edges of the operations *)

(** After [make_shared] a wrapper is copied by aliasing: the copy constructor
    returns the wrapper itself and leaves the world alone, whatever the
    wrapper was before.  A second [make_shared] returns the same pointer and
    changes nothing. *)
Theorem ModuleWrapper_make_shared_then_copy {Obj : Type} `{!Module Obj}
        (this this' : ModuleWrapper) (p : ptr) (w : World Obj) :
  ModuleWrapper_make_shared this = Return p this' ->
  ModuleWrapper_copy this' w = Return this' w /\
  ModuleWrapper_make_shared this' = Return p this'.
Proof.
  destruct this as [|q|q]; simpl; intros [= <- <-]; split; reflexivity.
Qed.

Lemma ModuleWrapper_make_shared_then_copy_witness :
  ModuleWrapper_copy (Shared (Some 1%positive)) two_layers =
    Return (Shared (Some 1%positive)) two_layers /\
  ModuleWrapper_make_shared (Shared (Some 1%positive)) =
    Return (Some 1%positive) (Shared (Some 1%positive)).
Proof.
  apply (ModuleWrapper_make_shared_then_copy (Unique (Some 1%positive))). reflexivity.
Defined.

Section CompositionFacts.
Context {Obj : Type} `{!Module Obj}.
Implicit Types (s : @State Obj) (w : World Obj) (c : Container).

Lemma fold_each_app {S X B} (l1 l2 : list X) (body : B -> X -> M S B) (b : B) (st : S) :
  fold_each (l1 ++ l2) body b st =
  (let* b' := fold_each l1 body b in fold_each l2 body b') st.
Proof.
  revert b st. induction l1 as [|x l1 IH]; intros b st; simpl.
  - reflexivity.
  - unfold bind in *. destruct (body b x st); auto.
Qed.

Lemma pipeline_with_modules (ms ms0 : list ModuleWrapper) :
  forall input s,
    fold_each ms (fun output module =>
      call (ModuleWrapper_arrow module) (fun a => virt_forward a output)) input
      (with_modules ms0 s) =
    match fold_each ms (fun output module =>
      call (ModuleWrapper_arrow module) (fun a => virt_forward a output)) input s with
    | Return output s' => Return output (with_modules ms0 s')
    | Throw e s' => Throw e (with_modules ms0 s')
    | Undefined u => Undefined u
    end.
Proof.
  induction ms as [|m ms IH]; intros input s; simpl; [reflexivity|].
  unfold bind, call. destruct (ModuleWrapper_arrow m) as [a|]; [|reflexivity].
  unfold lift_world. simpl.
  destruct (virt_forward a input (world s)) as [mid w1| |]; try reflexivity.
  apply (IH mid (mkState (self s) w1)).
Qed.

(** A Sequential over the children [ms1 ++ ms2] is the Sequential over [ms1]
    followed by the Sequential over [ms2]: its [forward] is the [forward] of
    the first on the input and then the [forward] of the second on what the
    first returned, and a failure of either is the failure of the whole. *)
Theorem Sequential_forward_app s (ms1 ms2 : list ModuleWrapper) input :
  Sequential_forward input (with_modules (ms1 ++ ms2) s) =
  match Sequential_forward input (with_modules ms1 s) with
  | Return mid s1 =>
      match Sequential_forward mid (with_modules ms2 s1) with
      | Return output s2 => Return output (with_modules (ms1 ++ ms2) s2)
      | Throw e s2 => Throw e (with_modules (ms1 ++ ms2) s2)
      | Undefined u => Undefined u
      end
  | Throw e s1 => Throw e (with_modules (ms1 ++ ms2) s1)
  | Undefined u => Undefined u
  end.
Proof.
  unfold Sequential_forward, bind, gets. simpl.
  rewrite (pipeline_with_modules (ms1 ++ ms2)), (pipeline_with_modules ms1).
  rewrite fold_each_app. unfold bind.
  destruct (fold_each ms1 _ input s) as [mid s1| |]; try reflexivity.
  simpl. rewrite (pipeline_with_modules ms2 ms2 mid (with_modules ms1 s1)).
  rewrite (pipeline_with_modules ms2 ms1 mid s1).
  destruct (fold_each ms2 _ mid s1); reflexivity.
Qed.

(** [setParams] reaches the child through the unchecked index: at a valid
    position whose index-map entry names a child index outside the
    children, or a child wrapper that holds no module, [setParams] is
    undefined behaviour, where the scan for orphaned parameters would
    throw or fail on the same entry. *)
Theorem Container_setParams_unchecked_child s var position old midx pidx :
  nth_Z (params_ (self s)) position = Some old ->
  childParamIdx_ (self s) !! position = Some (midx, pidx) ->
  (nth_Z (modules_ (self s)) midx = None ->
   Container_setParams var position s = Undefined index_out_of_bounds) /\
  (forall m, nth_Z (modules_ (self s)) midx = Some m ->
             ModuleWrapper_arrow m = None ->
             Container_setParams var position s = Undefined null_dereference).
Proof.
  intros Hold Hidx.
  split.
  - intros Hm. unfold Container_setParams.
    rewrite (bind_Return _ _ _ _ _ (Module_setParams_valid s var position old Hold)).
    unfold bind, gets. simpl. rewrite Hidx.
    unfold modules_index, bind, gets. simpl. now rewrite Hm.
  - intros m Hm Ha. unfold Container_setParams.
    rewrite (bind_Return _ _ _ _ _ (Module_setParams_valid s var position old Hold)).
    unfold bind, gets. simpl. rewrite Hidx.
    unfold modules_index, bind, gets. simpl. rewrite Hm.
    unfold ret, call. now rewrite Ha.
Qed.

(** The keys under which a container without index-map entries reports its
    positions. *)
Lemma orphaned_loop_no_entries s :
  (forall i, (0 ≤ i < size_Z (params_ (self s)))%Z -> childParamIdx_ (self s) !! i = None) ->
  forall fuel i prev acc,
    (0 ≤ i ≤ size_Z (params_ (self s)))%Z ->
    Z.to_nat (size_Z (params_ (self s)) - i) < fuel ->
    orphaned_loop fuel i prev acc s =
    Return (Some (acc ⊎ list_to_set_disj
                          (map (fun p => (prev, p)) (seqZ i (size_Z (params_ (self s)) - i))))) s.
Proof.
  intros Hnone. induction fuel as [|fuel IH]; intros i prev acc Hi Hfuel; [lia|].
  rewrite orphaned_loop_unfold.
  destruct (decide (i < size_Z (params_ (self s)))%Z) as [Hlt|Hge].
  - rewrite (Hnone i) by lia. rewrite IH by lia.
    rewrite (seqZ_cons i) by lia. simpl.
    replace (Z.succ i) with (i + 1)%Z by lia.
    replace (Z.pred (size_Z (params_ (self s)) - i)) with
      (size_Z (params_ (self s)) - (i + 1))%Z by lia.
    now rewrite <- (assoc_L (⊎)).
  - replace (size_Z (params_ (self s)) - i)%Z with 0%Z by lia.
    simpl. now rewrite (right_id_L ∅ (⊎)).
Qed.

(** On a container none of whose positions has an index-map entry, the
    scan for orphaned parameters returns, and reports every position of
    the flat list, each once, under the key -1. *)
Theorem Container_getOrphanedParamsIdxMap_no_entries s :
  (forall i, (0 ≤ i < size_Z (params_ (self s)))%Z -> childParamIdx_ (self s) !! i = None) ->
  forall fuel,
    length (params_ (self s)) < fuel ->
    Container_getOrphanedParamsIdxMap fuel s =
    Return (Some (list_to_set_disj
                    (map (fun p => ((-1)%Z, p)) (seqZ 0 (size_Z (params_ (self s))))))) s.
Proof.
  intros Hnone fuel Hfuel. unfold Container_getOrphanedParamsIdxMap.
  rewrite (orphaned_loop_no_entries s Hnone) by (unfold size_Z; lia).
  rewrite (left_id_L ∅ (⊎)). now rewrite Z.sub_0_r.
Qed.

Lemma flag_own_params_lookup (b : bool) c w v :
  calcGrad (flag_own_params b c w) !! v =
  if decide (Exists (fun i => nth_Z (params_ c) i = Some v /\ childParamIdx_ c !! i = None)
                    (seqZ 0 (size_Z (params_ c))))
  then Some b else calcGrad w !! v.
Proof.
  destruct (decide _) as [Hex|Hno].
  - apply Exists_exists in Hex as (i & Hi & Hv & Hn).
    eapply flag_loop_sets; eauto.
  - apply flag_loop_frame. intros i Hv Hn. apply Hno, Exists_exists.
    exists i. repeat split; auto. apply nth_Z_Some in Hv. apply elem_of_seqZ. lia.
Qed.

(** Of two switches of mode the later one decides the flags of the
    container's own parameters: the loop of [eval()] after that of
    [train()], or the reverse, leaves what the later loop alone would have
    left, and a loop run twice leaves what it left the first time. *)
Theorem own_params_loop_twice s (b b' : bool) :
  (own_params_loop b >> own_params_loop b') s = own_params_loop b' s.
Proof.
  unfold bind at 1. rewrite !own_params_loop_run. simpl.
  f_equal. f_equal.
  assert (forall w1 w2 : World Obj, heap w1 = heap w2 -> calcGrad w1 = calcGrad w2 -> w1 = w2)
    as Hext by (intros [] []; simpl; congruence).
  apply Hext.
  - unfold flag_own_params. now rewrite !flag_loop_heap.
  - apply map_eq. intros v. rewrite !flag_own_params_lookup.
    destruct (decide _); reflexivity.
Qed.

End CompositionFacts.

Lemma Container_setParams_unchecked_child_witness :
  Container_setParams 99 1 misindexed = Undefined index_out_of_bounds.
Proof.
  apply (Container_setParams_unchecked_child misindexed 99 1 11 6 0); reflexivity.
Defined.

Lemma Container_getOrphanedParamsIdxMap_no_entries_witness :
  Container_getOrphanedParamsIdxMap 4 only_own =
  Return (Some ({[+ ((-1)%Z, 0%Z) +]} ⊎ {[+ ((-1)%Z, 1%Z) +]} ⊎ {[+ ((-1)%Z, 2%Z) +]})) only_own.
Proof.
  rewrite (Container_getOrphanedParamsIdxMap_no_entries only_own).
  - vm_compute. reflexivity.
  - intros i _. apply lookup_empty.
  - simpl. lia.
Defined.

(** ** The training driver *)

Lemma to_int_small (z : Z) : (- 2 ^ 31 ≤ z ≤ int_max)%Z -> to_int z = z.
Proof.
  unfold to_int, int_max. intros Hz.
  rewrite Z.mod_small by lia. lia.
Qed.

Lemma to_uint64_small (z : Z) : (0 ≤ z ≤ int_max)%Z -> to_uint64 z = z.
Proof.
  unfold to_uint64, int_max. intros Hz. apply Z.mod_small. lia.
Qed.

Lemma to_uint64_negative (z : Z) :
  (- 2 ^ 31 ≤ z < 0)%Z -> to_uint64 z = (2 ^ 64 + z)%Z.
Proof.
  unfold to_uint64. intros Hz.
  rewrite <- (Z.mod_add z 1 (2 ^ 64)) by lia.
  rewrite Z.mod_small by lia. lia.
Qed.

Lemma to_int_range (z : Z) : (- 2 ^ 31 ≤ to_int z ≤ int_max)%Z.
Proof.
  unfold to_int, int_max.
  pose proof (Z.mod_pos_bound (z + 2 ^ 31) (2 ^ 32) ltac:(lia)). lia.
Qed.

Lemma epoch_loop_range (isMaster : bool) (flags : Flags) :
  (train_epochs flags ≤ int_max)%Z ->
  forall fuel epoch calls,
    (0 ≤ epoch ≤ int_max)%Z ->
    Z.to_nat (train_epochs flags - epoch) < fuel ->
    epoch_loop fuel isMaster flags epoch calls =
    finished (calls ++ concat (map (epoch_body isMaster flags)
                                   (seqZ epoch (train_epochs flags - epoch)))).
Proof.
  intros Hn. induction fuel as [|fuel IH]; intros epoch calls He Hfuel; [lia|].
  simpl. rewrite to_uint64_small by lia.
  destruct (decide (epoch < train_epochs flags)%Z) as [Hlt|Hge].
  - destruct (decide (epoch = int_max)); [lia|].
    rewrite IH by lia.
    rewrite (seqZ_cons epoch) by lia. cbn [map concat].
    replace (Z.succ epoch) with (epoch + 1)%Z by lia.
    replace (Z.pred (train_epochs flags - epoch)) with
      (train_epochs flags - (epoch + 1))%Z by lia.
    now rewrite <- app_assoc.
  - replace (seqZ epoch (train_epochs flags - epoch)) with (@nil Z).
    + simpl. now rewrite app_nil_r.
    + unfold seqZ. replace (Z.to_nat (train_epochs flags - epoch)) with 0 by lia.
      reflexivity.
Qed.

Lemma training_run (isMaster : bool) (flags : Flags) (fuel : nat) :
  (-1 ≤ exp_checkpoint_epoch flags < int_max)%Z ->
  (0 ≤ train_epochs flags ≤ int_max)%Z ->
  Z.to_nat (train_epochs flags) < fuel ->
  training fuel isMaster flags =
  finished
    ((if decide (0 ≤ exp_checkpoint_epoch flags)%Z
      then [load (modelPath flags (exp_checkpoint_epoch flags))] else []) ++
     concat (map (epoch_body isMaster flags)
                 (seqZ (exp_checkpoint_epoch flags + 1)
                       (train_epochs flags - (exp_checkpoint_epoch flags + 1))))).
Proof.
  intros Hc Hn Hfuel. unfold training, loadModel.
  destruct (decide (exp_checkpoint_epoch flags = int64_max)) as [E|_].
  { unfold int64_max, int_max in *. lia. }
  rewrite (to_int_small (exp_checkpoint_epoch flags + 1)) by (unfold int_max in *; lia).
  rewrite epoch_loop_range by lia.
  destruct (decide (0 ≤ exp_checkpoint_epoch flags)%Z); [|reflexivity].
  rewrite to_int_small by (unfold int_max in *; lia). reflexivity.
Qed.

(** From a checkpoint epoch between -1 and [INT_MAX - 1] and with at most
    [INT_MAX] epochs to train, the run finishes: it loads the checkpoint of
    that epoch when the epoch is not negative, and then runs the body of the
    loop once for each epoch after the checkpoint and below
    [FLAGS_train_epochs], in order, and for no other.  The file a resumed
    run loads is the file the run before saved at that epoch. *)
Theorem training_schedule (isMaster : bool) (flags : Flags) (fuel : nat) :
  (-1 ≤ exp_checkpoint_epoch flags < int_max)%Z ->
  (0 ≤ train_epochs flags ≤ int_max)%Z ->
  Z.to_nat (train_epochs flags) < fuel ->
  training fuel isMaster flags =
  finished
    ((if decide (0 ≤ exp_checkpoint_epoch flags)%Z
      then [load (modelPath flags (exp_checkpoint_epoch flags))] else []) ++
     concat (map (fun epoch =>
                    [resample] ++ lrScheduler epoch ++ [train_and_validate epoch] ++
                    (if isMaster then [save (modelPath flags epoch)] else []))
                 (seqZ (exp_checkpoint_epoch flags + 1)
                       (train_epochs flags - (exp_checkpoint_epoch flags + 1))))).
Proof. apply training_run. Qed.

Lemma to_int_negative (z : Z) : (to_int z < 0 <-> 2 ^ 31 ≤ z mod 2 ^ 32)%Z.
Proof. unfold to_int. Z.div_mod_to_equations. lia. Qed.

(** The loop reads of the flags only the prefix of the path and the number
    of epochs. *)
Lemma epoch_loop_flags (isMaster : bool) (path : string) (c c' n : Z) :
  forall fuel epoch calls,
    epoch_loop fuel isMaster (mkFlags path c n) epoch calls =
    epoch_loop fuel isMaster (mkFlags path c' n) epoch calls.
Proof.
  induction fuel as [|fuel IH]; intros epoch calls; [reflexivity|].
  simpl. destruct (decide _); [|reflexivity].
  destruct (decide _); [reflexivity|]. apply IH.
Qed.

(** The first epoch of the loop is the checkpoint epoch plus one, converted
    to [int]; the loop compares it with the [uint64] number of epochs.  That
    [int] is negative exactly when the checkpoint epoch plus one is at least
    [2^31] modulo [2^32].  It then counts as a number beyond [2^64 - 2^31]:
    no epoch is trained, and the run makes no call but the load of the
    checkpoint that a checkpoint epoch of zero or more asks for.  So a run
    from a checkpoint epoch between [-2^31 - 1] and -2 does nothing at all.
    Outside the range of [int] the sign of the checkpoint epoch does not
    decide: a negative checkpoint epoch runs as any other negative one that
    differs from it by a multiple of [2^32]. *)
Theorem training_negative_start (isMaster : bool) (flags : Flags) (fuel : nat) :
  ((to_int (exp_checkpoint_epoch flags + 1) < 0)%Z <->
   (2 ^ 31 ≤ (exp_checkpoint_epoch flags + 1) mod 2 ^ 32)%Z) /\
  ((to_int (exp_checkpoint_epoch flags + 1) < 0)%Z ->
   (0 ≤ train_epochs flags ≤ 2 ^ 64 - 2 ^ 31)%Z ->
   training (S fuel) isMaster flags =
   finished (if decide (0 ≤ exp_checkpoint_epoch flags)%Z
             then [load (modelPath flags (to_int (exp_checkpoint_epoch flags)))] else [])) /\
  ((- 2 ^ 31 - 1 ≤ exp_checkpoint_epoch flags < -1)%Z ->
   (0 ≤ train_epochs flags ≤ 2 ^ 64 - 2 ^ 31)%Z ->
   training (S fuel) isMaster flags = finished []) /\
  (forall k : Z,
     (exp_checkpoint_epoch flags < 0)%Z ->
     (exp_checkpoint_epoch flags + k * 2 ^ 32 < 0)%Z ->
     training fuel isMaster
       (mkFlags (exp_checkpoint_path flags) (exp_checkpoint_epoch flags + k * 2 ^ 32)
                (train_epochs flags)) =
     training fuel isMaster flags).
Proof.
  assert ((to_int (exp_checkpoint_epoch flags + 1) < 0)%Z ->
          (0 ≤ train_epochs flags ≤ 2 ^ 64 - 2 ^ 31)%Z ->
          training (S fuel) isMaster flags =
          finished (if decide (0 ≤ exp_checkpoint_epoch flags)%Z
                    then [load (modelPath flags (to_int (exp_checkpoint_epoch flags)))]
                    else [])) as Hrun.
  { intros Hneg Hn. unfold training, loadModel.
    destruct (decide (exp_checkpoint_epoch flags = int64_max)) as [E|_].
    { rewrite E in Hneg. vm_compute in Hneg. discriminate Hneg. }
    simpl. pose proof (to_int_range (exp_checkpoint_epoch flags + 1)) as Hr.
    rewrite to_uint64_negative by lia.
    destruct (decide _); [lia|reflexivity]. }
  split; [apply to_int_negative|]. split; [exact Hrun|]. split.
  - intros Hc Hn. rewrite Hrun; auto.
    + destruct (decide _); [lia|reflexivity].
    + rewrite to_int_small by (unfold int_max; lia). lia.
  - intros k Hc Hc'. destruct flags as [path c n]. simpl in *. unfold training. simpl.
    destruct (decide (0 ≤ c + k * 2 ^ 32)%Z); [lia|].
    destruct (decide (0 ≤ c)%Z); [lia|].
    destruct (decide (c + k * 2 ^ 32 = int64_max)%Z) as [E|_]; [unfold int64_max in E; lia|].
    destruct (decide (c = int64_max)) as [E|_]; [unfold int64_max in E; lia|].
    assert (to_int (c + k * 2 ^ 32 + 1) = to_int (c + 1)) as ->.
    { unfold to_int. f_equal.
      replace (c + k * 2 ^ 32 + 1 + 2 ^ 31)%Z with (c + 1 + 2 ^ 31 + k * 2 ^ 32)%Z by lia.
      apply Z.mod_add. lia. }
    apply epoch_loop_flags.
Qed.

Lemma scalings_app (l1 l2 : list driver_call) :
  scalings (l1 ++ l2) = scalings l1 + scalings l2.
Proof. unfold scalings. now rewrite filter_app, length_app. Qed.

Lemma scalings_epoch_body (isMaster : bool) (flags : Flags) (epoch : Z) :
  scalings (epoch_body isMaster flags epoch) =
  if decide (epoch = 60 \/ epoch = 90 \/ epoch = 120)%Z then 1 else 0.
Proof.
  unfold epoch_body, lrScheduler, saveModel.
  destruct (decide _); destruct isMaster; reflexivity.
Qed.

Lemma scalings_range (isMaster : bool) (flags : Flags) (n : nat) :
  forall epoch,
    scalings (concat (map (epoch_body isMaster flags) (seqZ epoch (Z.of_nat n)))) =
    length (filter (fun e => epoch ≤ e < epoch + Z.of_nat n)%Z [60; 90; 120]%Z).
Proof.
  induction n as [|n IH]; intros epoch.
  - simpl. repeat (rewrite filter_cons; destruct (decide _); [lia|]). reflexivity.
  - rewrite (seqZ_cons epoch) by lia. cbn [map concat].
    rewrite scalings_app, scalings_epoch_body.
    replace (Z.pred (Z.of_nat (S n))) with (Z.of_nat n) by lia.
    rewrite IH.
    rewrite !filter_cons, !filter_nil.
    repeat destruct (decide _); simpl; lia.
Qed.

(** The learning rate is scaled once at each of the epochs 60, 90 and 120
    that the run trains, and at no other time: at most three times however
    many epochs are trained, and not at all for the epochs 60, 90 or 120 that
    lie at or before the checkpoint a run resumes from. *)
Theorem training_scalings (isMaster : bool) (flags : Flags) (fuel : nat) :
  (-1 ≤ exp_checkpoint_epoch flags < int_max)%Z ->
  (0 ≤ train_epochs flags ≤ int_max)%Z ->
  Z.to_nat (train_epochs flags) < fuel ->
  exists calls,
    training fuel isMaster flags = finished calls /\
    scalings calls =
      length (filter (fun e => exp_checkpoint_epoch flags < e < train_epochs flags)%Z
                     [60; 90; 120]%Z) /\
    scalings calls ≤ 3.
Proof.
  intros Hc Hn Hfuel. eexists. split; [now apply training_run|].
  assert (forall calls, scalings calls =
            length (filter (fun e => exp_checkpoint_epoch flags < e < train_epochs flags)%Z
                           [60; 90; 120]%Z) -> scalings calls ≤ 3) as Hbound.
  { intros calls ->. rewrite !filter_cons, !filter_nil.
    repeat destruct (decide _); simpl; lia. }
  match goal with |- ?P /\ _ => assert P as Hcount end; [|split; [exact Hcount|now apply Hbound]].
  rewrite scalings_app.
  replace (scalings (if decide (0 ≤ exp_checkpoint_epoch flags)%Z
                     then [load (modelPath flags (exp_checkpoint_epoch flags))] else []))
    with 0 by (destruct (decide _); reflexivity).
  replace (seqZ (exp_checkpoint_epoch flags + 1)
                (train_epochs flags - (exp_checkpoint_epoch flags + 1)))
    with (seqZ (exp_checkpoint_epoch flags + 1)
               (Z.of_nat (Z.to_nat (train_epochs flags - (exp_checkpoint_epoch flags + 1)))))
    by (unfold seqZ; now rewrite Nat2Z.id).
  rewrite scalings_range, !filter_cons, !filter_nil.
  repeat destruct (decide _); simpl; lia.
Qed.

(** Checkpoints of different epochs are different files: for one prefix,
    two epochs that differ have paths that differ, so no epoch's checkpoint
    overwrites another's. *)
Theorem modelPath_distinct (flags : Flags) (epoch1 epoch2 : Z) :
  epoch1 <> epoch2 -> modelPath flags epoch1 <> modelPath flags epoch2.
Proof.
  unfold modelPath. intros Hne E. apply Hne.
  apply String.app_inj in E. now apply pretty_Z_inj in E.
Qed.

(** Resuming from the checkpoint of epoch 58 for 62 epochs in all, on the
    master: the checkpoint is loaded, epochs 59, 60 and 61 are trained and
    saved, and the learning rate is scaled once, at epoch 60. *)
Lemma training_schedule_witness :
  training 100 true (mkFlags "/tmp/model" 58 62) =
  finished [load "/tmp/model58";
            resample; train_and_validate 59; save "/tmp/model59";
            resample; setLr_tenth; train_and_validate 60; save "/tmp/model60";
            resample; train_and_validate 61; save "/tmp/model61"].
Proof.
  rewrite training_schedule.
  - vm_compute. reflexivity.
  - vm_compute. split; [discriminate|reflexivity].
  - vm_compute. split; discriminate.
  - simpl. lia.
Defined.

(** From the checkpoint epoch -2 nothing is trained.  From 4294967294 the
    checkpoint of the epoch -2 it wraps to is loaded and nothing is
    trained.  From -4294967297 the run is the run from -1: it trains from
    epoch 0. *)
Lemma training_negative_start_witness :
  training 1 true (mkFlags "/tmp/model" (-2) 50) = finished [] /\
  training 1 true (mkFlags "/tmp/model" 4294967294 50) = finished [load "/tmp/model-2"] /\
  training 10 true (mkFlags "/tmp/model" (-4294967297) 2) =
  finished [resample; train_and_validate 0; save "/tmp/model0";
            resample; train_and_validate 1; save "/tmp/model1"].
Proof.
  split; [|split].
  - apply (proj1 (proj2 (proj2 (training_negative_start true (mkFlags "/tmp/model" (-2) 50) 0)))).
    + vm_compute. split; [discriminate|reflexivity].
    + vm_compute. split; discriminate.
  - rewrite (proj1 (proj2 (training_negative_start true
                             (mkFlags "/tmp/model" 4294967294 50) 0))).
    + vm_compute. reflexivity.
    + reflexivity.
    + vm_compute. split; discriminate.
  - transitivity (training 10 true (mkFlags "/tmp/model" (-1) 2)).
    + exact (proj2 (proj2 (proj2 (training_negative_start true
                                    (mkFlags "/tmp/model" (-1) 2) 10)))
               (-1)%Z eq_refl eq_refl).
    + vm_compute. reflexivity.
Defined.

Lemma training_scalings_witness :
  exists calls,
    training 200 false (mkFlags "/tmp/model" 100 150) = finished calls /\
    scalings calls = 1.
Proof.
  destruct (training_scalings false (mkFlags "/tmp/model" 100 150) 200) as (calls & E & Hc & _).
  - vm_compute. split; [discriminate|reflexivity].
  - vm_compute. split; discriminate.
  - simpl. lia.
  - exists calls. split; [exact E|]. rewrite Hc. reflexivity.
Defined.

Lemma modelPath_distinct_witness :
  modelPath (mkFlags "/tmp/model" 0 50) 1 <> modelPath (mkFlags "/tmp/model" 0 50) 10.
Proof. apply modelPath_distinct. discriminate. Defined.
